(** * mm.c: implicit free list allocator with boundary tags

    A shallow embedding of [src/mm.c].  The heap is a word-addressed store
    of 4-byte tags; every macro and every allocator function of the C file
    has a definition of the same name here (the debugging printers and
    [main] are left out).

    Conventions.
    - A pointer is the byte offset of the pointed word from [mem_heap_lo ()].
      The arena base is 8-byte aligned, so an offset is aligned exactly when
      the pointer is.  [NULL] and [(void * )-1] results are [None].
    - The store maps the byte offset of a word to the word.  All accesses of
      mm.c go through [GET]/[PUT] on offsets that are multiples of 4.
      A word that was never written holds whatever the arena held.
    - [unsigned int] and [int] are 32 bits wide, [size_t] is 64 bits wide;
      the wrap-around of each is written out with [uint], [sint], [usize]. *)

From Stdlib Require Import ZArith Lia Bool List Sorted.
Import ListNotations.
Local Open Scope Z_scope.

(** ** Machine integers *)

Definition uint (z : Z) : Z := z mod 2 ^ 32.
Definition sint (z : Z) : Z := (z + 2 ^ 31) mod 2 ^ 32 - 2 ^ 31.
Definition usize (z : Z) : Z := z mod 2 ^ 64.

(** ** Macros *)

Definition ALIGNMENT : Z := 8.

(** [ALIGN(size)], at type [size_t] as mm_malloc uses it:
    [(((size) + (ALIGNMENT-1)) & ~0x7)]. *)
Definition ALIGN (size : Z) : Z :=
  Z.land (usize (size + (ALIGNMENT - 1))) (usize (Z.lnot 7)).

Definition PACK (size alloc : Z) : Z := Z.lor size alloc.

Definition memory : Type := Z -> Z.

Definition GET (m : memory) (p : Z) : Z := m p.

(** [PUT(p, val)] stores [val] converted to [unsigned int]. *)
Definition PUT (m : memory) (p val : Z) : memory :=
  fun a => if a =? p then uint val else m a.

(** [GET(p) & ~0x7] at type [unsigned int]. *)
Definition GET_SIZE (m : memory) (p : Z) : Z :=
  Z.land (GET m p) (uint (Z.lnot 7)).

Definition GET_ALLOC (m : memory) (p : Z) : Z := Z.land (GET m p) 1.

Definition HDRP (bp : Z) : Z := bp - 4.
Definition FTRP (m : memory) (bp : Z) : Z := bp + GET_SIZE m (HDRP bp) - 8.

Definition NEXT_BLKP (m : memory) (bp : Z) : Z := bp + GET_SIZE m (HDRP bp).
Definition PREV_BLKP (m : memory) (bp : Z) : Z := bp - GET_SIZE m (bp - 8).

(** ** Allocator state

    The arena of memlib ([mem], [mem_brk], [mem_max_addr]) together with the
    one global of mm.c, [heap_startp]. *)

Record state : Type := mkState {
  mem : memory;
  mem_brk : Z;
  mem_max_addr : Z;
  heap_startp : Z
}.

Definition set_mem (st : state) (m : memory) : state :=
  mkState m (mem_brk st) (mem_max_addr st) (heap_startp st).

Definition set_heap_startp (st : state) (p : Z) : state :=
  mkState (mem st) (mem_brk st) (mem_max_addr st) p.

(** The three ways a call can end: it returns, an [assert] of the code
    fails, or the model ran out of steps for the search loop. *)
Inductive outcome (A : Type) : Type :=
| Ret (a : A)
| AssertFailed
| OutOfFuel.
Arguments Ret {A} a.
Arguments AssertFailed {A}.
Arguments OutOfFuel {A}.

(** ** memlib *)

(** Modelled from the spec: memlib.c is not part of the sources.  The arena
    right after [mem_init]: nothing handed out yet, [cap] bytes available,
    contents [m0] arbitrary; [heap_startp] is still [NULL]. *)
Definition mem_init (m0 : memory) (cap : Z) : state := mkState m0 0 cap 0.

(** Modelled from the spec: memlib.c is not part of the sources.  The growth
    primitive [heap_grow(n_bytes)]: extends the managed region by [incr]
    bytes and returns the start of the new region, or fails when no more
    memory is available; it never shrinks the region. *)
Definition mem_sbrk (st : state) (incr : Z) : option (state * Z) :=
  if (incr <? 0) || (mem_max_addr st <? mem_brk st + incr) then None
  else Some (mkState (mem st) (mem_brk st + incr) (mem_max_addr st)
                     (heap_startp st),
             mem_brk st).

(** Modelled from the spec: memlib.c is not part of the sources.
    [heap_bounds()] gives the inclusive bounds of the managed region. *)
Definition mem_heap_lo (st : state) : Z := 0.
Definition mem_heap_hi (st : state) : Z := mem_brk st - 1.

(** ** mm.c *)

(** [mm_init]: returns the new state and the [int] result. *)
Definition mm_init (st : state) : state * Z :=
  match mem_sbrk st (4 * 4) with
  | None => (st, -1)
  | Some (st1, _) =>
      let heap_start := mem_heap_lo st1 in
      let m := PUT (mem st1) heap_start 0 in
      let m := PUT m (heap_start + 4) (PACK 8 1) in
      let m := PUT m (heap_start + 8) (PACK 8 1) in
      let m := PUT m (heap_start + 12) (PACK 0 1) in
      (set_heap_startp (set_mem st1 m) (heap_start + 8), 0)
  end.

(** [split(bp, newsize)]; [newsize] is an [int]. *)
Definition split (m : memory) (bp newsize : Z) : memory :=
  let free_size := sint (GET_SIZE m (HDRP bp)) in
  let remaining := sint (free_size - newsize) in
  let m := PUT m (HDRP bp) (PACK newsize 1) in
  let m := PUT m (FTRP m bp) (PACK newsize 1) in
  let m := PUT m (HDRP (NEXT_BLKP m bp)) (PACK remaining 0) in
  let m := PUT m (FTRP m (NEXT_BLKP m bp)) (PACK remaining 0) in
  m.

(** [coalesce(bp)]: the store afterwards and the returned pointer.  The
    [printf] on the merge path has no effect on the heap. *)
Definition coalesce (m : memory) (bp : Z) : memory * Z :=
  let prev := PREV_BLKP m bp in
  if negb (GET_ALLOC m (HDRP prev) =? 0) then (m, bp)
  else
    let newsize := sint (uint (GET_SIZE m (HDRP bp) + GET_SIZE m (HDRP prev))) in
    let m := PUT m (HDRP prev) (PACK newsize 0) in
    let m := PUT m (FTRP m bp) (PACK newsize 0) in
    (m, prev).

(** The first half of [extend_heap]: the number of bytes it will ask
    [mem_sbrk] for, or [None] when [assert(size_last < newsize)] fails. *)
Definition grow_request (st : state) (newsize : Z) : option Z :=
  let epilogue_bp := mem_heap_hi st - 3 in
  let last := PREV_BLKP (mem st) epilogue_bp in
  if GET_ALLOC (mem st) (HDRP last) =? 0 then
    let size_last := sint (GET_SIZE (mem st) (HDRP last)) in
    if size_last <? newsize then Some (sint (newsize - size_last)) else None
  else Some newsize.

(** [extend_heap(newsize)]. *)
Definition extend_heap (st : state) (newsize : Z) : outcome (state * option Z) :=
  match grow_request st newsize with
  | None => AssertFailed
  | Some newsize =>
      match mem_sbrk st newsize with
      | None => Ret (st, None)
      | Some (st1, bp) =>
          let m := PUT (mem st1) (HDRP bp) (PACK newsize 0) in
          let m := PUT m (FTRP m bp) (PACK newsize 0) in
          let m := PUT m (NEXT_BLKP m bp) (PACK 0 1) in
          let (m, r) := coalesce m bp in
          Ret (set_mem st1 m, Some r)
      end
  end.

(** [int newsize = ALIGN(size + 8);] for a [size_t size]. *)
Definition request_size (size : Z) : Z := sint (ALIGN (usize (size + 8))).

(** The test of the search loop on one block: free and large enough.  The
    comparison is between [unsigned int]s. *)
Definition fits (m : memory) (newsize bp : Z) : bool :=
  (GET_ALLOC m (HDRP bp) =? 0) && (uint newsize <=? GET_SIZE m (HDRP bp)).

(** The [while] loop of [mm_malloc], up to the point where it has chosen a
    block: [Some (Some bp)] when the loop body takes its [if], [Some None]
    when the loop ends at a zero size, [None] when [fuel] iterations were not
    enough.  The loop writes nothing before it has chosen. *)
Fixpoint find_fit (fuel : nat) (m : memory) (current newsize : Z)
  : option (option Z) :=
  match fuel with
  | O => None
  | S fuel' =>
      if GET_SIZE m (HDRP current) =? 0 then Some None
      else if fits m newsize current then Some (Some current)
      else find_fit fuel' m (NEXT_BLKP m current) newsize
  end.

(** [mm_malloc(size)]. *)
Definition mm_malloc (fuel : nat) (st : state) (size : Z)
  : outcome (state * option Z) :=
  let newsize := request_size size in
  match find_fit fuel (mem st) (heap_startp st) newsize with
  | None => OutOfFuel
  | Some (Some current) =>
      let m := mem st in
      let m := if GET_SIZE m (HDRP current) =? uint newsize then m
               else split m current newsize in
      let m := PUT m (HDRP current) (PACK newsize 1) in
      let m := PUT m (FTRP m current) (PACK newsize 1) in
      Ret (set_mem st m, Some current)
  | Some None =>
      match extend_heap st newsize with
      | Ret (st1, Some bp) =>
          let m := PUT (mem st1) (HDRP bp) (PACK newsize 1) in
          let m := PUT m (FTRP m bp) (PACK newsize 1) in
          Ret (set_mem st1 m, Some bp)
      | Ret (st1, None) => Ret (st1, None)
      | AssertFailed => AssertFailed
      | OutOfFuel => OutOfFuel
      end
  end.

(** [mm_free(ptr)]. *)
Definition mm_free (st : state) (ptr : Z) : state :=
  let size := sint (GET_SIZE (mem st) (HDRP ptr)) in
  let m := PUT (mem st) (HDRP ptr) (PACK size 0) in
  let m := PUT m (FTRP m ptr) (PACK size 0) in
  set_mem st (fst (coalesce m ptr)).

(** [mm_realloc(ptr, size)]: the body is empty.  Nothing is read and
    nothing is written.  Control reaches the closing brace without a
    [return]: the value the caller receives is whatever the compiler and the
    calling convention leave there, not something the source determines, so
    it is no part of the model; only the state is. *)
Definition mm_realloc (st : state) (ptr size : Z) : state := st.

(** ** Tags, blocks and the implicit list *)

Definition tag_size (w : Z) : Z := Z.land w (uint (Z.lnot 7)).
Definition tag_alloc (w : Z) : Z := Z.land w 1.

(** The smallest block the code lays down: a header and a footer, as the
    prologue written by [mm_init] and the block of [mm_malloc(0)]. *)
Definition MIN_BLOCK : Z := 8.

(** The minimum block size as the design document words it (section 4.2):
    header and footer, plus a payload large enough to host a header and a
    footer later, 16 bytes in all.  mm.c has no such constant and no test
    against it. *)
Definition SPEC_MIN_BLOCK : Z := 16.

(** The block reached from [cur] after [i] steps of [NEXT_BLKP]. *)
Fixpoint walk (m : memory) (cur : Z) (i : nat) : Z :=
  match i with
  | O => cur
  | S i' => walk m (NEXT_BLKP m cur) i'
  end.

(** Two consecutive blocks of the list, both real (non-zero size) and both
    free. *)
Definition both_free (m : memory) (bp : Z) : bool :=
  negb (GET_SIZE m (HDRP bp) =? 0) && (GET_ALLOC m (HDRP bp) =? 0) &&
  negb (GET_SIZE m (HDRP (NEXT_BLKP m bp)) =? 0) &&
  (GET_ALLOC m (HDRP (NEXT_BLKP m bp)) =? 0).

(** [bp] is the payload pointer of an allocated block of non-zero size. *)
Definition live_block (m : memory) (bp : Z) : Prop :=
  GET_ALLOC m (HDRP bp) = 1 /\ 0 < GET_SIZE m (HDRP bp).

(** The block before [bp], found through the footer word at [bp - 8] as
    [PREV_BLKP] does, is a block of non-zero size whose header says
    allocated. *)
Definition pred_allocated (m : memory) (bp : Z) : Prop :=
  0 < GET_SIZE m (bp - 8) /\ GET_ALLOC m (HDRP (PREV_BLKP m bp)) = 1.

(** Block number [j] of the list from [cur] lies before the epilogue: no
    header up to and including its own has size zero. *)
Definition before_epilogue (m : memory) (cur : Z) (j : nat) : Prop :=
  forall i, (i <= j)%nat -> GET_SIZE m (HDRP (walk m cur i)) <> 0.

(** No two consecutive blocks between prologue and epilogue are both
    free. *)
Definition no_adjacent_free (st : state) : Prop :=
  forall i, before_epilogue (mem st) (heap_startp st) (S i) ->
            both_free (mem st) (walk (mem st) (heap_startp st) i) = false.

(** ** The paths of [mm_init], [mm_malloc] and [mm_free], written out

    Each definition names a stretch of straight-line code of mm.c; the
    lemmas [mm_init_ok], [extend_heap_ok], [mm_malloc_grow],
    [mm_malloc_take] and [mm_free_unfold] tie it to the function it comes
    from. *)

Definition grown (st : state) (incr : Z) : state :=
  mkState (mem st) (mem_brk st + incr) (mem_max_addr st) (heap_startp st).

(** The store [mm_init] leaves behind. *)
Definition init_mem (m0 : memory) : memory :=
  PUT (PUT (PUT (PUT m0 0 0) 4 (PACK 8 1)) 8 (PACK 8 1)) 12 (PACK 0 1).

Definition init_state (m0 : memory) (cap : Z) : state :=
  mkState (init_mem m0) 16 cap 8.

(** The store after the two [PUT]s of [mm_free], before [coalesce]. *)
Definition mark_free (m : memory) (ptr : Z) : memory :=
  let size := sint (GET_SIZE m (HDRP ptr)) in
  let m := PUT m (HDRP ptr) (PACK size 0) in
  PUT m (FTRP m ptr) (PACK size 0).

(** The three [PUT]s of [extend_heap] on the block at the old break. *)
Definition lay_free (m : memory) (bp newsize : Z) : memory :=
  let m := PUT m (HDRP bp) (PACK newsize 0) in
  let m := PUT m (FTRP m bp) (PACK newsize 0) in
  PUT m (NEXT_BLKP m bp) (PACK 0 1).

(** The two [PUT]s that mark the chosen block allocated. *)
Definition place (m : memory) (bp newsize : Z) : memory :=
  let m := PUT m (HDRP bp) (PACK newsize 1) in
  PUT m (FTRP m bp) (PACK newsize 1).

Definition extended (st : state) (req : Z) : memory * Z :=
  coalesce (lay_free (mem st) (mem_brk st) req) (mem_brk st).

Definition take (m : memory) (current newsize : Z) : memory :=
  place (if GET_SIZE m (HDRP current) =? uint newsize then m
         else split m current newsize) current newsize.

(** The state a growing [mm_malloc] returns, and the state a reusing
    [mm_malloc] returns (see [mm_malloc_grow] and [mm_malloc_take]). *)
Definition grow_state (st : state) (size req : Z) : state :=
  set_mem (grown st req)
          (place (fst (extended st req)) (snd (extended st req))
                 (request_size size)).

Definition take_state (st : state) (size current : Z) : state :=
  set_mem st (take (mem st) current (request_size size)).

(** ** Concrete heaps *)

(** An arena of zero pages. *)
Definition zero_arena : memory := fun _ => 0.

(** [init; p = malloc(24); free(p); q = malloc(8)]: the 32-byte block is
    split into [q] (16 bytes, at 16) and a free remainder (16 bytes, at 32). *)

Definition split_st1 (m0 : memory) (cap : Z) : state :=
  grow_state (init_state m0 cap) 24 32.

Definition split_st2 (m0 : memory) (cap : Z) : state :=
  take_state (mm_free (split_st1 m0 cap) 16) 8 16.

(** [init; p = malloc(16); free(p); malloc(8)]. *)

Definition reuse_st1 (m0 : memory) (cap : Z) : state :=
  grow_state (init_state m0 cap) 16 24.

Definition reuse_st3 (m0 : memory) (cap : Z) : state :=
  take_state (mm_free (reuse_st1 m0 cap) 16) 8 16.

(** [init; p = malloc(0); free(p); extend_heap(32)]. *)

Definition tail_st1 (m0 : memory) (cap : Z) : state :=
  grow_state (init_state m0 cap) 0 8.

Definition tail_st3 (m0 : memory) (cap : Z) : state :=
  let st2 := mm_free (tail_st1 m0 cap) 16 in
  set_mem (grown st2 32) (fst (extended st2 32)).

(** [init; p = malloc(16); free(p); a = malloc(8); b = malloc(0); free(a);
    free(b); c = malloc(16)] on an arena of zero pages. *)

Definition stale_st1 (cap : Z) : state :=
  grow_state (init_state zero_arena cap) 16 24.

Definition stale_st3 (cap : Z) : state :=
  take_state (mm_free (stale_st1 cap) 16) 8 16.

Definition stale_st4 (cap : Z) : state := take_state (stale_st3 cap) 0 32.

Definition stale_st7 (cap : Z) : state :=
  take_state (mm_free (mm_free (stale_st4 cap) 16) 32) 16 16.

(** On an arena of zero pages with room for 40 bytes: the heap right after
    [mm_init]; the heap after [malloc(16)], whose only block after the
    prologue (24 bytes, at 16) is allocated; and that heap after the block
    was freed. *)
Definition full_start : state := init_state zero_arena 40.
Definition one_block : state := reuse_st1 zero_arena 40.
Definition one_free_block : state := mm_free one_block 16.

(** A heap right after [mm_init] whose arena is used up. *)
Definition full_arena : state := init_state zero_arena 16.

(** ** The debugging printers

    [print_block] and [print_heap] only read the heap; what they send to
    [printf] is modelled as the value printed. *)

(** One [print_block] call: the block pointer, the header's size and
    allocated bit, the footer's size and allocated bit, and the two
    neighbours. *)
Record block_line : Type := mkLine {
  line_bp : Z;
  line_hsize : Z;
  line_halloc : Z;
  line_fsize : Z;
  line_falloc : Z;
  line_next : Z;
  line_prev : Z
}.

(** [print_block(bp)]. *)
Definition print_block (m : memory) (bp : Z) : block_line :=
  let hsize := GET_SIZE m (HDRP bp) in
  let halloc := GET_ALLOC m (HDRP bp) in
  let fsize := GET_SIZE m (FTRP m bp) in
  let falloc := GET_ALLOC m (FTRP m bp) in
  mkLine bp hsize halloc fsize falloc (NEXT_BLKP m bp) (PREV_BLKP m bp).

(** The [while] loop of [print_heap] from [bp] on: the blocks printed, and
    the address printed as the epilogue header once a zero size stops the
    loop; [None] when [fuel] iterations were not enough. *)
Fixpoint print_heap_from (fuel : nat) (m : memory) (bp : Z)
  : option (list block_line * Z) :=
  match fuel with
  | O => None
  | S fuel' =>
      if GET_SIZE m (HDRP bp) =? 0 then Some ([], HDRP bp)
      else
        match print_heap_from fuel' m (NEXT_BLKP m bp) with
        | Some (ls, e) => Some (print_block m bp :: ls, e)
        | None => None
        end
  end.

(** [print_heap()]. *)
Definition print_heap (fuel : nat) (st : state)
  : option (list block_line * Z) :=
  print_heap_from fuel (mem st) (heap_startp st).

(** The test of the search loop, read off a printed line. *)
Definition line_fits (newsize : Z) (l : block_line) : bool :=
  (line_halloc l =? 0) && (uint newsize <=? line_hsize l).

(** * Properties *)

(** ** Machine integers and tags *)

Lemma uint_land (z : Z) : uint z = Z.land z (Z.ones 32).
Proof. unfold uint. rewrite Z.land_ones by lia. reflexivity. Qed.

Lemma uint_range (z : Z) : 0 <= uint z < 2 ^ 32.
Proof. unfold uint. apply Z.mod_pos_bound. lia. Qed.

Lemma uint_idem (z : Z) : uint (uint z) = uint z.
Proof. unfold uint. apply Z.mod_mod. lia. Qed.

Lemma uint_small (z : Z) : 0 <= z < 2 ^ 32 -> uint z = z.
Proof. unfold uint. apply Z.mod_small. Qed.

Lemma uint_sint (z : Z) : uint (sint z) = uint z.
Proof.
  unfold uint, sint.
  rewrite Zminus_mod_idemp_l.
  f_equal. lia.
Qed.

Lemma tag_size_uint (w : Z) : tag_size (uint w) = tag_size w.
Proof.
  unfold tag_size. rewrite uint_land, <- Z.land_assoc.
  f_equal.
Qed.

Lemma tag_size_sint (w : Z) : tag_size (sint w) = tag_size w.
Proof. rewrite <- tag_size_uint, uint_sint. apply tag_size_uint. Qed.

Lemma tag_size_idem (w : Z) : tag_size (tag_size w) = tag_size w.
Proof.
  unfold tag_size. rewrite <- Z.land_assoc, Z.land_diag. reflexivity.
Qed.

Lemma tag_size_range (w : Z) : 0 <= tag_size w < 2 ^ 32.
Proof.
  unfold tag_size.
  change (uint (Z.lnot 7)) with (Z.land 4294967288 (Z.ones 32)).
  rewrite Z.land_assoc, <- uint_land. apply uint_range.
Qed.

Lemma tag_size_low (w : Z) : Z.land (tag_size w) 7 = 0.
Proof.
  unfold tag_size. rewrite <- Z.land_assoc.
  change (Z.land (uint (Z.lnot 7)) 7) with 0. apply Z.land_0_r.
Qed.

(** A size is a multiple of the alignment. *)
Lemma tag_size_mul8 (w : Z) : exists q, tag_size w = 8 * q.
Proof.
  exists (tag_size w / 8).
  pose proof (tag_size_low w) as H.
  change 7 with (Z.ones 3) in H. rewrite Z.land_ones in H by lia.
  change (2 ^ 3) with 8 in H.
  pose proof (Z.div_mod (tag_size w) 8 ltac:(lia)). lia.
Qed.

Lemma tag_alloc_tag_size (w : Z) : tag_alloc (tag_size w) = 0.
Proof.
  unfold tag_alloc, tag_size. rewrite <- Z.land_assoc.
  change (Z.land (uint (Z.lnot 7)) 1) with 0. apply Z.land_0_r.
Qed.

Lemma tag_alloc_uint (w : Z) : tag_alloc (uint w) = tag_alloc w.
Proof.
  unfold tag_alloc. rewrite uint_land, <- Z.land_assoc. f_equal.
Qed.

Lemma tag_alloc_range (w : Z) : tag_alloc w = 0 \/ tag_alloc w = 1.
Proof.
  unfold tag_alloc.
  assert (E : Z.land w 1 = w mod 2) by (apply (Z.land_ones w 1); lia).
  pose proof (Z.mod_pos_bound w 2). lia.
Qed.

Lemma tag_size_PACK (n a : Z) : a = 0 \/ a = 1 -> tag_size (PACK n a) = tag_size n.
Proof.
  intros Ha. unfold tag_size, PACK. rewrite Z.land_lor_distr_l.
  destruct Ha; subst a; simpl (Z.land _ (uint (Z.lnot 7)));
    change (Z.land 1 (uint (Z.lnot 7))) with 0; apply Z.lor_0_r.
Qed.

Lemma tag_alloc_PACK_1 (n : Z) : tag_alloc (PACK n 1) = 1.
Proof.
  unfold tag_alloc, PACK. rewrite Z.land_lor_distr_l.
  change (Z.land 1 1) with 1.
  destruct (tag_alloc_range n) as [H | H]; unfold tag_alloc in H; rewrite H;
    reflexivity.
Qed.

Lemma PACK_0 (n : Z) : PACK n 0 = n.
Proof. apply Z.lor_0_r. Qed.

(** A word whose low three bits are clear is its own size. *)
Lemma tag_size_aligned (w : Z) : Z.land w 7 = 0 -> tag_size w = uint w.
Proof.
  intros H. rewrite <- tag_size_uint. unfold tag_size.
  assert (E : Z.land (uint w) 7 = 0).
  { rewrite uint_land, <- Z.land_assoc.
    change (Z.land (Z.ones 32) 7) with 7. exact H. }
  assert (R : Z.land (uint w) (uint (Z.lnot 7)) = Z.ldiff (uint w) 7).
  { rewrite <- (uint_idem w) at 1. rewrite (uint_land (uint w)).
    rewrite <- Z.land_assoc.
    change (Z.land (Z.ones 32) (uint (Z.lnot 7))) with (uint (Z.lnot 7)).
    apply Z.bits_inj'. intros n Hn.
    rewrite Z.land_spec, Z.ldiff_spec.
    destruct (Z.ltb_spec n 32) as [Hlt | Hge].
    - f_equal.
      change (uint (Z.lnot 7)) with (Z.ldiff (Z.ones 32) 7).
      rewrite Z.ldiff_spec, Z.ones_spec_low by lia. reflexivity.
    - assert (B : Z.testbit (uint w) n = false).
      { rewrite uint_land, Z.land_spec, Z.ones_spec_high by lia.
        apply andb_false_r. }
      rewrite B. reflexivity. }
  rewrite R.
  pose proof (Z.lor_ldiff_and (uint w) 7) as L.
  rewrite E, Z.lor_0_r in L. exact L.
Qed.

Lemma sint_decomp (z : Z) : exists k, sint z = z + 2 ^ 32 * k.
Proof.
  unfold sint. exists (- ((z + 2 ^ 31) / 2 ^ 32)).
  pose proof (Z.div_mod (z + 2 ^ 31) (2 ^ 32) ltac:(lia)). lia.
Qed.

Lemma land7_mod (z : Z) : Z.land z 7 = z mod 8.
Proof. apply (Z.land_ones z 3). lia. Qed.

Lemma uint_PACK (n a : Z) : a = 0 \/ a = 1 -> uint (PACK n a) = PACK (uint n) a.
Proof.
  intros Ha. unfold PACK.
  rewrite uint_land, Z.land_lor_distr_l, <- uint_land.
  destruct Ha; subst a; reflexivity.
Qed.

Lemma tag_alloc_uint_PACK_1 (n : Z) : tag_alloc (uint (PACK n 1)) = 1.
Proof. rewrite tag_alloc_uint. apply tag_alloc_PACK_1. Qed.

Lemma mul8_land7 (k : Z) : Z.land (8 * k) 7 = 0.
Proof. rewrite land7_mod, Z.mul_comm. apply Z_mod_mult. Qed.

(** ** Reading after writing *)

Lemma PUT_same (m : memory) (p v : Z) : PUT m p v p = uint v.
Proof. unfold PUT. rewrite Z.eqb_refl. reflexivity. Qed.

Lemma PUT_other (m : memory) (p v a : Z) : a <> p -> PUT m p v a = m a.
Proof. intros H. unfold PUT. apply Z.eqb_neq in H. rewrite H. reflexivity. Qed.

Lemma GET_SIZE_tag (m : memory) (p : Z) : GET_SIZE m p = tag_size (m p).
Proof. reflexivity. Qed.

Lemma GET_ALLOC_tag (m : memory) (p : Z) : GET_ALLOC m p = tag_alloc (m p).
Proof. reflexivity. Qed.

Lemma GET_SIZE_PUT_same (m : memory) (p v : Z) :
  GET_SIZE (PUT m p v) p = tag_size v.
Proof. rewrite GET_SIZE_tag, PUT_same. apply tag_size_uint. Qed.

Lemma GET_SIZE_PUT_other (m : memory) (p v a : Z) :
  a <> p -> GET_SIZE (PUT m p v) a = GET_SIZE m a.
Proof. intros H. rewrite !GET_SIZE_tag, PUT_other by exact H. reflexivity. Qed.

Lemma GET_ALLOC_PUT_same (m : memory) (p v : Z) :
  GET_ALLOC (PUT m p v) p = tag_alloc v.
Proof. rewrite GET_ALLOC_tag, PUT_same. apply tag_alloc_uint. Qed.

Lemma GET_ALLOC_PUT_other (m : memory) (p v a : Z) :
  a <> p -> GET_ALLOC (PUT m p v) a = GET_ALLOC m a.
Proof. intros H. rewrite !GET_ALLOC_tag, PUT_other by exact H. reflexivity. Qed.

Lemma GET_SIZE_mul8 (m : memory) (p : Z) : exists q, GET_SIZE m p = 8 * q.
Proof. rewrite GET_SIZE_tag. apply tag_size_mul8. Qed.

Lemma GET_SIZE_range (m : memory) (p : Z) : 0 <= GET_SIZE m p < 2 ^ 32.
Proof. rewrite GET_SIZE_tag. apply tag_size_range. Qed.

Lemma PUT_cases (m : memory) (p v a : Z) :
  PUT m p v a = uint v \/ PUT m p v a = m a.
Proof. unfold PUT. destruct (a =? p); [left | right]; reflexivity. Qed.

(** ** free *)

Lemma coalesce_pred_allocated (m : memory) (bp : Z) :
  GET_ALLOC m (HDRP (PREV_BLKP m bp)) = 1 -> coalesce m bp = (m, bp).
Proof.
  intros H. unfold coalesce. rewrite H. reflexivity.
Qed.

Lemma mark_free_footer (m : memory) (ptr : Z) :
  FTRP (PUT m (HDRP ptr) (PACK (sint (GET_SIZE m (HDRP ptr))) 0)) ptr
  = ptr + GET_SIZE m (HDRP ptr) - 8.
Proof.
  unfold FTRP. rewrite GET_SIZE_PUT_same, PACK_0, tag_size_sint.
  rewrite GET_SIZE_tag, tag_size_idem. reflexivity.
Qed.

Lemma mark_free_val (m : memory) (ptr : Z) :
  uint (PACK (sint (GET_SIZE m (HDRP ptr))) 0) = GET_SIZE m (HDRP ptr).
Proof.
  rewrite PACK_0, uint_sint. apply uint_small, GET_SIZE_range.
Qed.

Lemma mark_free_spec (m : memory) (ptr a : Z) :
  mark_free m ptr a =
  if (a =? HDRP ptr) || (a =? ptr + GET_SIZE m (HDRP ptr) - 8)
  then GET_SIZE m (HDRP ptr) else m a.
Proof.
  unfold mark_free. rewrite mark_free_footer.
  unfold PUT at 1. destruct (a =? ptr + GET_SIZE m (HDRP ptr) - 8) eqn:E1.
  - rewrite orb_true_r. apply mark_free_val.
  - rewrite orb_false_r. unfold PUT.
    destruct (a =? HDRP ptr); [apply mark_free_val | reflexivity].
Qed.

Lemma mm_free_unfold (st : state) (ptr : Z) :
  mm_free st ptr = set_mem st (fst (coalesce (mark_free (mem st) ptr) ptr)).
Proof. reflexivity. Qed.

(** With an allocated predecessor, [coalesce] does nothing: the store after
    [mm_free] is the store after its two [PUT]s. *)
Lemma mm_free_mark (st : state) (ptr : Z) :
  live_block (mem st) ptr ->
  pred_allocated (mem st) ptr ->
  mem (mm_free st ptr) = mark_free (mem st) ptr.
Proof.
  intros [Ha Hs] [Hp Hpa].
  set (m := mem st) in *. set (size := GET_SIZE m (HDRP ptr)) in *.
  destruct (GET_SIZE_mul8 m (HDRP ptr)) as [q Hq].
  destruct (GET_SIZE_mul8 m (ptr - 8)) as [r Hr].
  fold size in Hq.
  assert (Hprev : PREV_BLKP (mark_free m ptr) ptr = PREV_BLKP m ptr).
  { unfold PREV_BLKP. rewrite !GET_SIZE_tag, mark_free_spec.
    fold size. unfold HDRP.
    replace ((ptr - 8 =? ptr - 4) || (ptr - 8 =? ptr + size - 8))
      with false; [reflexivity |].
    symmetry. apply orb_false_iff. split; apply Z.eqb_neq; lia. }
  assert (Hc : coalesce (mark_free m ptr) ptr = (mark_free m ptr, ptr)).
  { apply coalesce_pred_allocated. rewrite Hprev.
    rewrite GET_ALLOC_tag, mark_free_spec. fold size.
    replace ((HDRP (PREV_BLKP m ptr) =? HDRP ptr)
             || (HDRP (PREV_BLKP m ptr) =? ptr + size - 8))
      with false; [exact Hpa |].
    symmetry. apply orb_false_iff.
    unfold HDRP, PREV_BLKP. split; apply Z.eqb_neq; lia. }
  rewrite mm_free_unfold. fold m. rewrite Hc. reflexivity.
Qed.

(** C10.  When [ptr] is a live allocated block whose predecessor is
    allocated, [mm_free] rewrites exactly the header and the footer of that
    block, each to the same size with the allocated bit cleared; every other
    word of the store, and the break, are as before. *)
Theorem mm_free_writes_only_own_tags (st : state) (ptr : Z) :
  live_block (mem st) ptr ->
  pred_allocated (mem st) ptr ->
  let size := GET_SIZE (mem st) (HDRP ptr) in
  let st' := mm_free st ptr in
  (forall a, a <> HDRP ptr -> a <> FTRP (mem st) ptr ->
             mem st' a = mem st a) /\
  mem st' (HDRP ptr) = PACK size 0 /\
  mem st' (FTRP (mem st) ptr) = PACK size 0 /\
  GET_SIZE (mem st') (HDRP ptr) = size /\
  GET_ALLOC (mem st') (HDRP ptr) = 0 /\
  FTRP (mem st') ptr = FTRP (mem st) ptr /\
  GET_SIZE (mem st') (FTRP (mem st') ptr) = size /\
  GET_ALLOC (mem st') (FTRP (mem st') ptr) = 0 /\
  mem_brk st' = mem_brk st /\
  mem_max_addr st' = mem_max_addr st /\
  heap_startp st' = heap_startp st.
Proof.
  intros Hlive Hpred size st'.
  pose proof (mm_free_mark st ptr Hlive Hpred) as Hm. fold st' in Hm.
  destruct Hlive as [Ha Hs].
  set (m := mem st) in *. fold size in Hs.
  assert (Hf : FTRP m ptr = ptr + size - 8) by reflexivity.
  assert (Hh : mem st' (HDRP ptr) = size).
  { rewrite Hm, mark_free_spec, Z.eqb_refl. reflexivity. }
  assert (Hft : mem st' (ptr + size - 8) = size).
  { rewrite Hm, mark_free_spec. fold size. rewrite Z.eqb_refl, orb_true_r.
    reflexivity. }
  assert (Hf' : FTRP (mem st') ptr = ptr + size - 8).
  { unfold FTRP. rewrite GET_SIZE_tag, Hh. unfold size.
    rewrite GET_SIZE_tag, tag_size_idem. reflexivity. }
  repeat split.
  - intros a H1 H2. rewrite Hm, mark_free_spec. fold size.
    rewrite Hf in H2.
    apply Z.eqb_neq in H1, H2. rewrite H1, H2. reflexivity.
  - rewrite PACK_0. exact Hh.
  - rewrite Hf, PACK_0. exact Hft.
  - rewrite GET_SIZE_tag, Hh. unfold size.
    rewrite GET_SIZE_tag. apply tag_size_idem.
  - rewrite GET_ALLOC_tag, Hh. unfold size.
    rewrite GET_SIZE_tag. apply tag_alloc_tag_size.
  - rewrite Hf', Hf. reflexivity.
  - rewrite Hf', GET_SIZE_tag, Hft. unfold size.
    rewrite GET_SIZE_tag. apply tag_size_idem.
  - rewrite Hf', GET_ALLOC_tag, Hft. unfold size.
    rewrite GET_SIZE_tag. apply tag_alloc_tag_size.
Qed.

Lemma mm_free_writes_only_own_tags_witness :
  let st := one_block in
  let ptr := 16 in
  let size := GET_SIZE (mem st) (HDRP ptr) in
  let st' := mm_free st ptr in
  (forall a, a <> HDRP ptr -> a <> FTRP (mem st) ptr ->
             mem st' a = mem st a) /\
  mem st' (HDRP ptr) = PACK size 0 /\
  mem st' (FTRP (mem st) ptr) = PACK size 0 /\
  GET_SIZE (mem st') (HDRP ptr) = size /\
  GET_ALLOC (mem st') (HDRP ptr) = 0 /\
  FTRP (mem st') ptr = FTRP (mem st) ptr /\
  GET_SIZE (mem st') (FTRP (mem st') ptr) = size /\
  GET_ALLOC (mem st') (FTRP (mem st') ptr) = 0 /\
  mem_brk st' = mem_brk st /\
  mem_max_addr st' = mem_max_addr st /\
  heap_startp st' = heap_startp st.
Proof.
  apply (mm_free_writes_only_own_tags one_block 16).
  - split; vm_compute; reflexivity.
  - split; vm_compute; reflexivity.
Defined.

(** ** allocate: the first-fit search *)

Lemma walk_S (m : memory) (cur : Z) (i : nat) :
  walk m cur (S i) = walk m (NEXT_BLKP m cur) i.
Proof. reflexivity. Qed.

Lemma before_epilogue_next (m : memory) (cur : Z) (j : nat) :
  before_epilogue m cur (S j) -> before_epilogue m (NEXT_BLKP m cur) j.
Proof.
  intros H i Hi. rewrite <- walk_S. apply H. lia.
Qed.

(** Blocks are met in increasing address order. *)
Lemma walk_increasing (m : memory) (j : nat) :
  forall cur i, before_epilogue m cur j -> (i < j)%nat ->
                walk m cur i < walk m cur j.
Proof.
  induction j as [| j IH]; intros cur i Hb Hi; [lia |].
  assert (Hstep : cur < NEXT_BLKP m cur).
  { pose proof (Hb O ltac:(lia)) as H0. simpl in H0.
    pose proof (GET_SIZE_range m (HDRP cur)). unfold NEXT_BLKP. lia. }
  destruct i as [| i].
  - simpl. destruct j as [| j].
    + simpl. exact Hstep.
    + pose proof (IH (NEXT_BLKP m cur) O (before_epilogue_next _ _ _ Hb)
                     ltac:(lia)) as H.
      simpl in H. simpl. lia.
  - rewrite !walk_S. apply IH; [apply before_epilogue_next; exact Hb | lia].
Qed.

Lemma find_fit_first (m : memory) (newsize : Z) (j : nat) :
  forall cur fuel,
    before_epilogue m cur j ->
    fits m newsize (walk m cur j) = true ->
    (j < fuel)%nat ->
    exists k, (k <= j)%nat /\
              fits m newsize (walk m cur k) = true /\
              (forall i, (i < k)%nat -> fits m newsize (walk m cur i) = false) /\
              find_fit fuel m cur newsize = Some (Some (walk m cur k)).
Proof.
  induction j as [| j IH]; intros cur fuel Hb Hf Hfuel.
  - exists O. destruct fuel as [| fuel]; [lia |].
    repeat split; [lia | exact Hf | intros i Hi; lia |].
    simpl in *. pose proof (Hb O ltac:(lia)) as H0. simpl in H0.
    apply Z.eqb_neq in H0. rewrite H0, Hf. reflexivity.
  - destruct fuel as [| fuel]; [lia |].
    pose proof (Hb O ltac:(lia)) as H0. simpl in H0. apply Z.eqb_neq in H0.
    destruct (fits m newsize cur) eqn:Hc.
    + exists O. repeat split; [lia | exact Hc | intros i Hi; lia |].
      simpl. rewrite H0, Hc. reflexivity.
    + destruct (IH (NEXT_BLKP m cur) fuel (before_epilogue_next _ _ _ Hb) Hf
                  ltac:(lia)) as (k & Hk & Hfk & Hlt & Hff).
      exists (S k). repeat split.
      * lia.
      * exact Hfk.
      * intros [| i] Hi; [exact Hc | rewrite walk_S; apply Hlt; lia].
      * simpl. rewrite H0, Hc. exact Hff.
Qed.

Lemma mm_malloc_found (fuel : nat) (st : state) (size current : Z) :
  find_fit fuel (mem st) (heap_startp st) (request_size size)
  = Some (Some current) ->
  exists st', mm_malloc fuel st size = Ret (st', Some current) /\
              mem_brk st' = mem_brk st /\
              mem_max_addr st' = mem_max_addr st /\
              heap_startp st' = heap_startp st.
Proof.
  intros H. unfold mm_malloc. rewrite H.
  eexists. split; [reflexivity |]. repeat split.
Qed.

(** C6.  If some block [j] of the list that starts at [heap_startp], lying
    before the epilogue, is free and at least as large as the needed size,
    then [mm_malloc] returns the payload pointer of the first such block [k]
    in address order, and the break has not moved. *)
Theorem mm_malloc_first_fit (fuel : nat) (st : state) (size : Z) (j : nat) :
  let m := mem st in
  let newsize := request_size size in
  before_epilogue m (heap_startp st) j ->
  fits m newsize (walk m (heap_startp st) j) = true ->
  (j < fuel)%nat ->
  exists k st',
    (k <= j)%nat /\
    fits m newsize (walk m (heap_startp st) k) = true /\
    (forall i, (i < k)%nat ->
               fits m newsize (walk m (heap_startp st) i) = false /\
               walk m (heap_startp st) i < walk m (heap_startp st) k) /\
    mm_malloc fuel st size = Ret (st', Some (walk m (heap_startp st) k)) /\
    mem_brk st' = mem_brk st.
Proof.
  intros m newsize Hb Hf Hfuel.
  destruct (find_fit_first m newsize j (heap_startp st) fuel Hb Hf Hfuel)
    as (k & Hk & Hfk & Hlt & Hff).
  destruct (mm_malloc_found fuel st size _ Hff) as (st' & Hm & Hbrk & _).
  exists k, st'. repeat split; try assumption.
  - apply Hlt. assumption.
  - apply walk_increasing; [| assumption].
    intros i' Hi'. apply Hb. lia.
Qed.

Lemma mm_malloc_first_fit_witness :
  let st := one_free_block in
  let m := mem st in
  let newsize := request_size 8 in
  exists k st',
    (k <= 1)%nat /\
    fits m newsize (walk m (heap_startp st) k) = true /\
    (forall i, (i < k)%nat ->
               fits m newsize (walk m (heap_startp st) i) = false /\
               walk m (heap_startp st) i < walk m (heap_startp st) k) /\
    mm_malloc 3 st 8 = Ret (st', Some (walk m (heap_startp st) k)) /\
    mem_brk st' = mem_brk st.
Proof.
  apply (mm_malloc_first_fit 3 one_free_block 8 1).
  - intros i Hi. destruct i as [| [| i]]; [vm_compute; discriminate .. | lia].
  - vm_compute. reflexivity.
  - lia.
Defined.

(** ** allocate: running out of memory *)

(** C7.  When the search found no fitting block and [mem_sbrk] refuses the
    request of [extend_heap], [mm_malloc] returns [NULL] and the state (so
    every tag of every block) is exactly as before the call; conversely a
    [NULL] result only ever comes from a refused [mem_sbrk]. *)
Theorem mm_malloc_null_iff_sbrk_fails (fuel : nat) (st : state) (size : Z) :
  let newsize := request_size size in
  (forall req,
      find_fit fuel (mem st) (heap_startp st) newsize = Some None ->
      grow_request st newsize = Some req ->
      mem_sbrk st req = None ->
      mm_malloc fuel st size = Ret (st, None)) /\
  (forall st',
      mm_malloc fuel st size = Ret (st', None) ->
      st' = st /\
      find_fit fuel (mem st) (heap_startp st) newsize = Some None /\
      exists req, grow_request st newsize = Some req /\
                  mem_sbrk st req = None).
Proof.
  intros newsize. split.
  - intros req Hs Hg Hb. unfold mm_malloc, extend_heap.
    fold newsize. rewrite Hs, Hg, Hb. reflexivity.
  - intros st'. unfold mm_malloc, extend_heap. fold newsize.
    destruct (find_fit fuel (mem st) (heap_startp st) newsize)
      as [[current |] |]; try discriminate.
    destruct (grow_request st newsize) as [req |]; try discriminate.
    destruct (mem_sbrk st req) as [[st1 bp] |] eqn:Hb.
    + destruct (coalesce _ bp) as [m r]. discriminate.
    + intros H. inversion H; subst st'.
      split; [reflexivity |]. split; [reflexivity |].
      exists req. split; [reflexivity | exact Hb].
Qed.

Lemma mm_malloc_null_iff_sbrk_fails_witness :
  mm_malloc 2 full_arena 8 = Ret (full_arena, None) /\
  (full_arena = full_arena /\
   find_fit 2 (mem full_arena) (heap_startp full_arena) (request_size 8)
   = Some None /\
   exists req, grow_request full_arena (request_size 8) = Some req /\
               mem_sbrk full_arena req = None).
Proof.
  assert (H : mm_malloc 2 full_arena 8 = Ret (full_arena, None)).
  { apply (proj1 (mm_malloc_null_iff_sbrk_fails 2 full_arena 8) 16);
      vm_compute; reflexivity. }
  split; [exact H |].
  apply (proj2 (mm_malloc_null_iff_sbrk_fails 2 full_arena 8) full_arena).
  exact H.
Defined.

(** ** allocate: splitting *)

Lemma request_size_aligned (size : Z) : Z.land (request_size size) 7 = 0.
Proof.
  unfold request_size.
  destruct (sint_decomp (ALIGN (usize (size + 8)))) as [k Hk].
  rewrite Hk, land7_mod.
  replace (2 ^ 32 * k) with ((2 ^ 29 * k) * 8) by lia.
  rewrite Z_mod_plus_full, <- land7_mod.
  unfold ALIGN. rewrite <- Z.land_assoc.
  change (Z.land (usize (Z.lnot 7)) 7) with 0. apply Z.land_0_r.
Qed.

Lemma tag_size_request (size : Z) :
  tag_size (request_size size) = uint (request_size size).
Proof. apply tag_size_aligned, request_size_aligned. Qed.

Lemma fits_spec (m : memory) (newsize bp : Z) :
  fits m newsize bp = true ->
  GET_ALLOC m (HDRP bp) = 0 /\ uint newsize <= GET_SIZE m (HDRP bp).
Proof.
  unfold fits. intros H. apply andb_prop in H. destruct H as [H1 H2].
  split; [apply Z.eqb_eq | apply Z.leb_le]; assumption.
Qed.

Lemma find_fit_sound (fuel : nat) (m : memory) (newsize : Z) :
  forall cur current,
    find_fit fuel m cur newsize = Some (Some current) ->
    GET_SIZE m (HDRP current) <> 0 /\ fits m newsize current = true.
Proof.
  induction fuel as [| fuel IH]; intros cur current H; [discriminate |].
  simpl in H.
  destruct (GET_SIZE m (HDRP cur) =? 0) eqn:E0; [discriminate |].
  destruct (fits m newsize cur) eqn:Ef.
  - inversion H; subst current. split; [apply Z.eqb_neq |]; assumption.
  - apply (IH _ _ H).
Qed.

(** The remainder that [split] lays down, as an [unsigned int]. *)
Lemma split_remaining (fsize newsize : Z) :
  0 <= fsize < 2 ^ 32 ->
  uint newsize <= fsize ->
  uint (PACK (sint (sint fsize - newsize)) 0) = fsize - uint newsize.
Proof.
  intros Hf Hle. rewrite PACK_0, uint_sint.
  destruct (sint_decomp fsize) as [k Hk]. rewrite Hk.
  pose proof (uint_range newsize) as Hr.
  pose proof (Z.div_mod newsize (2 ^ 32) ltac:(lia)) as Hd.
  fold (uint newsize) in Hd.
  unfold uint at 1.
  replace (fsize + 2 ^ 32 * k - newsize)
    with (fsize - uint newsize + (k - newsize / 2 ^ 32) * 2 ^ 32) by lia.
  rewrite Z_mod_plus_full. apply Z.mod_small. lia.
Qed.

(** Every word [split] leaves at an address is the old word, an allocated
    tag, or the tag of the remainder. *)
Lemma split_words (m : memory) (bp newsize a : Z) :
  let remaining := sint (sint (GET_SIZE m (HDRP bp)) - newsize) in
  split m bp newsize a = m a \/
  split m bp newsize a = uint (PACK newsize 1) \/
  split m bp newsize a = uint (PACK remaining 0).
Proof.
  intros remaining. unfold split. fold remaining.
  repeat match goal with
         | |- context [PUT ?m0 ?p ?v a] =>
             destruct (PUT_cases m0 p v a) as [E | E]; rewrite E; clear E
         end; auto.
Qed.

(** The words [mm_malloc] leaves when the search has chosen [current]: if
    the block exceeds the needed size by less than 8 bytes it is exactly
    that size, the whole block is taken and only its header and footer are
    rewritten (same size, allocated); and in every case a word that
    [mm_malloc] changed and that reads as a free tag carries a size of at
    least 8. *)
Lemma mm_malloc_found_words
  (fuel : nat) (st : state) (size current : Z) :
  let m := mem st in
  let newsize := request_size size in
  let fsize := GET_SIZE m (HDRP current) in
  find_fit fuel m (heap_startp st) newsize = Some (Some current) ->
  exists st',
    mm_malloc fuel st size = Ret (st', Some current) /\
    uint newsize <= fsize /\
    (fsize - uint newsize < MIN_BLOCK ->
     fsize = uint newsize /\
     forall a, mem st' a =
               if (a =? HDRP current) || (a =? FTRP m current)
               then PACK fsize 1 else m a) /\
    (forall a, mem st' a <> m a ->
               GET_ALLOC (mem st') a = 0 ->
               MIN_BLOCK <= GET_SIZE (mem st') a).
Proof.
  intros m newsize fsize Hfind.
  destruct (find_fit_sound _ _ _ _ _ Hfind) as [Hnz Hfits].
  destruct (fits_spec _ _ _ Hfits) as [Hfree Hle]. fold fsize in Hle, Hnz.
  destruct (GET_SIZE_mul8 m (HDRP current)) as [q Hq]. fold fsize in Hq.
  pose proof (GET_SIZE_range m (HDRP current)) as Hrange. fold fsize in Hrange.
  pose proof (tag_size_request size) as Hts. fold newsize in Hts.
  destruct (tag_size_mul8 newsize) as [r Hr]. rewrite Hts in Hr.
  pose proof (uint_range newsize) as Hur.
  unfold mm_malloc. fold newsize m. rewrite Hfind. fold fsize.
  eexists. split; [reflexivity |]. split; [exact Hle |].
  cbn [mem set_mem]. split.
  - (* the excess is below the minimum: no split *)
    unfold MIN_BLOCK. intros Hex.
    assert (Heq : fsize = uint newsize) by lia.
    split; [exact Heq |].
    apply Z.eqb_eq in Heq. rewrite Heq. apply Z.eqb_eq in Heq.
    intros a. unfold FTRP at 1.
    rewrite GET_SIZE_PUT_same, tag_size_PACK by (right; reflexivity).
    fold newsize. rewrite Hts, <- Heq.
    assert (Hv : uint (PACK newsize 1) = PACK fsize 1).
    { rewrite uint_PACK by (right; reflexivity). rewrite <- Heq. reflexivity. }
    unfold FTRP. fold m fsize. unfold PUT at 1.
    destruct (a =? current + fsize - 8).
    + rewrite orb_true_r. exact Hv.
    + rewrite orb_false_r. unfold PUT.
      destruct (a =? HDRP current); [exact Hv | reflexivity].
  - (* changed words that read as free tags *)
    intros a Hch Hfr. unfold MIN_BLOCK.
    rewrite GET_ALLOC_tag in Hfr. rewrite GET_SIZE_tag.
    match type of Hch with
    | PUT ?m2 ?p2 ?v2 a <> _ =>
        destruct (PUT_cases m2 p2 v2 a) as [E | E]; rewrite E in *; clear E
    end.
    { rewrite tag_alloc_uint_PACK_1 in Hfr. discriminate. }
    match type of Hch with
    | PUT ?m2 ?p2 ?v2 a <> _ =>
        destruct (PUT_cases m2 p2 v2 a) as [E | E]; rewrite E in *; clear E
    end.
    { rewrite tag_alloc_uint_PACK_1 in Hfr. discriminate. }
    destruct (fsize =? uint newsize) eqn:Hsp.
    { exfalso. apply Hch. reflexivity. }
    apply Z.eqb_neq in Hsp.
    destruct (split_words m current newsize a) as [E | [E | E]];
      rewrite E in *; clear E.
    + exfalso. apply Hch. reflexivity.
    + rewrite tag_alloc_uint_PACK_1 in Hfr. discriminate.
    + fold m fsize. rewrite (split_remaining fsize newsize Hrange Hle).
      replace (fsize - uint newsize) with (8 * (q - r)) by lia.
      rewrite tag_size_aligned by apply mul8_land7.
      rewrite uint_small by lia. lia.
Qed.

(** ** Fuel *)

Lemma find_fit_step (fuel : nat) (m : memory) (cur newsize : Z) :
  GET_SIZE m (HDRP cur) <> 0 /\ fits m newsize cur = false ->
  find_fit (S fuel) m cur newsize
  = find_fit fuel m (NEXT_BLKP m cur) newsize.
Proof.
  intros [H0 Hf]. simpl. apply Z.eqb_neq in H0. rewrite H0, Hf. reflexivity.
Qed.

Lemma find_fit_stop (fuel : nat) (m : memory) (cur newsize : Z) :
  GET_SIZE m (HDRP cur) = 0 -> find_fit (S fuel) m cur newsize = Some None.
Proof.
  intros H0. simpl. apply Z.eqb_eq in H0. rewrite H0. reflexivity.
Qed.

Lemma find_fit_mono (m : memory) (newsize : Z) (fuel : nat) :
  forall cur r fuel',
    find_fit fuel m cur newsize = Some r ->
    (fuel <= fuel')%nat ->
    find_fit fuel' m cur newsize = Some r.
Proof.
  induction fuel as [| fuel IH]; intros cur r fuel' H Hle; [discriminate |].
  destruct fuel' as [| fuel']; [lia |].
  simpl in *.
  destruct (GET_SIZE m (HDRP cur) =? 0); [exact H |].
  destruct (fits m newsize cur); [exact H |].
  apply IH; [exact H | lia].
Qed.

(** Once the search has come to an end, more fuel changes nothing. *)
Lemma mm_malloc_mono (fuel fuel' : nat) (st : state) (size : Z) :
  mm_malloc fuel st size <> OutOfFuel ->
  (fuel <= fuel')%nat ->
  mm_malloc fuel' st size = mm_malloc fuel st size.
Proof.
  intros H Hle. unfold mm_malloc in *.
  destruct (find_fit fuel (mem st) (heap_startp st) (request_size size))
    as [r |] eqn:E; [| contradiction].
  rewrite (find_fit_mono _ _ _ _ _ _ E Hle). reflexivity.
Qed.

(** ** The paths, tied to the code *)

Lemma mem_sbrk_ok (st : state) (incr : Z) :
  0 <= incr -> mem_brk st + incr <= mem_max_addr st ->
  mem_sbrk st incr = Some (grown st incr, mem_brk st).
Proof.
  intros H1 H2. unfold mem_sbrk.
  apply Z.ltb_ge in H1, H2. rewrite H1, H2. reflexivity.
Qed.

Lemma mm_init_ok (m0 : memory) (cap : Z) :
  16 <= cap -> mm_init (mem_init m0 cap) = (init_state m0 cap, 0).
Proof.
  intros H. unfold mm_init.
  rewrite mem_sbrk_ok by (simpl; lia). reflexivity.
Qed.

Lemma extend_heap_ok (st : state) (newsize req : Z) :
  grow_request st newsize = Some req ->
  0 <= req -> mem_brk st + req <= mem_max_addr st ->
  extend_heap st newsize
  = Ret (set_mem (grown st req) (fst (extended st req)),
         Some (snd (extended st req))).
Proof.
  intros Hg H1 H2. unfold extend_heap.
  rewrite Hg, mem_sbrk_ok by assumption.
  unfold extended, lay_free. cbn [mem grown].
  destruct (coalesce _ (mem_brk st)) as [m r]. reflexivity.
Qed.

Lemma mm_malloc_grow (fuel : nat) (st : state) (size req : Z) :
  find_fit fuel (mem st) (heap_startp st) (request_size size) = Some None ->
  grow_request st (request_size size) = Some req ->
  0 <= req -> mem_brk st + req <= mem_max_addr st ->
  mm_malloc fuel st size
  = Ret (set_mem (grown st req)
                 (place (fst (extended st req)) (snd (extended st req))
                        (request_size size)),
         Some (snd (extended st req))).
Proof.
  intros Hs Hg H1 H2. unfold mm_malloc.
  rewrite Hs, (extend_heap_ok st _ req Hg H1 H2). reflexivity.
Qed.

Lemma mm_malloc_take (fuel : nat) (st : state) (size current : Z) :
  find_fit fuel (mem st) (heap_startp st) (request_size size)
  = Some (Some current) ->
  mm_malloc fuel st size
  = Ret (set_mem st (take (mem st) current (request_size size)), Some current).
Proof.
  intros H. unfold mm_malloc. rewrite H. reflexivity.
Qed.

(** [mm_malloc(0)] on the reuse path: the block handed out is [MIN_BLOCK]
    bytes long, header and footer only, and marked allocated. *)
Lemma mm_malloc_zero_reuse (fuel : nat) (st : state) (current : Z) :
  find_fit fuel (mem st) (heap_startp st) (request_size 0)
  = Some (Some current) ->
  exists st',
    mm_malloc fuel st 0 = Ret (st', Some current) /\
    GET_SIZE (mem st') (HDRP current) = MIN_BLOCK /\
    GET_ALLOC (mem st') (HDRP current) = 1 /\
    FTRP (mem st') current = current.
Proof.
  intros H. rewrite (mm_malloc_take _ _ _ _ H).
  eexists. split; [reflexivity |].
  cbn [mem set_mem]. unfold take, place.
  change (request_size 0) with 8.
  set (m1 := if _ =? _ then _ else _).
  assert (F : FTRP (PUT m1 (HDRP current) (PACK 8 1)) current = current).
  { unfold FTRP. rewrite GET_SIZE_PUT_same.
    change (tag_size (PACK 8 1)) with 8. lia. }
  rewrite F.
  assert (N : HDRP current <> current) by (unfold HDRP; lia).
  split; [| split].
  - rewrite GET_SIZE_PUT_other, GET_SIZE_PUT_same by exact N. reflexivity.
  - rewrite GET_ALLOC_PUT_other, GET_ALLOC_PUT_same by exact N. reflexivity.
  - unfold FTRP.
    rewrite GET_SIZE_PUT_other, GET_SIZE_PUT_same by exact N.
    change (tag_size (PACK 8 1)) with 8. lia.
Qed.

Lemma mm_malloc_enough (fuel fuel' : nat) (st : state) (size : Z)
      (r : state * option Z) :
  mm_malloc fuel st size = Ret r -> (fuel <= fuel')%nat ->
  mm_malloc fuel' st size = Ret r.
Proof.
  intros H Hle. rewrite <- H. apply mm_malloc_mono; [| exact Hle].
  rewrite H. discriminate.
Qed.

(** The concrete heaps are states of the code. *)
Lemma one_block_reached :
  mm_init (mem_init zero_arena 40) = (full_start, 0) /\
  mm_malloc 3 full_start 16 = Ret (one_block, Some 16).
Proof.
  split; [apply mm_init_ok; lia |].
  apply (mm_malloc_grow 3 full_start 16 24);
    [vm_compute; reflexivity | vm_compute; reflexivity | lia | simpl; lia].
Qed.

Lemma full_arena_reached : mm_init (mem_init zero_arena 16) = (full_arena, 0).
Proof. apply mm_init_ok. lia. Qed.

(** ** Scenarios on a fresh heap

    Nothing that the first three traces read was left unwritten by the
    code, so they are the same on every arena. *)

Lemma split_scenario (m0 : memory) (cap : Z) (fuel : nat) :
  48 <= cap -> (3 <= fuel)%nat ->
  mm_init (mem_init m0 cap) = (init_state m0 cap, 0) /\
  mm_malloc fuel (init_state m0 cap) 24 = Ret (split_st1 m0 cap, Some 16) /\
  mm_malloc fuel (mm_free (split_st1 m0 cap) 16) 8
  = Ret (split_st2 m0 cap, Some 16).
Proof.
  intros Hcap Hfuel.
  split; [apply mm_init_ok; lia |].
  split; apply (mm_malloc_enough 3); try assumption.
  - apply (mm_malloc_grow 3 (init_state m0 cap) 24 32);
      [vm_compute; reflexivity | vm_compute; reflexivity | lia | simpl; lia].
  - apply mm_malloc_take. vm_compute. reflexivity.
Qed.

(** C1.  After [init; p = malloc(24); free(p); q = malloc(8)], [q] is a
    live block whose successor (at 32) is free.  After [mm_free q] the
    header of [q] still carries [q]'s own 16 bytes, its footer is still its
    own (at 24, not the successor's at 40), and the successor is still a
    separate free block: the two were not merged. *)
Theorem mm_free_does_not_merge_successor
  (m0 : memory) (cap : Z) (fuel : nat) :
  48 <= cap -> (3 <= fuel)%nat ->
  exists st0 st1 st2,
    mm_init (mem_init m0 cap) = (st0, 0) /\
    mm_malloc fuel st0 24 = Ret (st1, Some 16) /\
    mm_malloc fuel (mm_free st1 16) 8 = Ret (st2, Some 16) /\
    (GET_ALLOC (mem st2) (HDRP 16) = 1 /\
     GET_SIZE (mem st2) (HDRP 16) = 16 /\
     NEXT_BLKP (mem st2) 16 = 32 /\
     GET_ALLOC (mem st2) (HDRP 32) = 0 /\
     GET_SIZE (mem st2) (HDRP 32) = 16 /\
     FTRP (mem st2) 32 = 40) /\
    let st3 := mm_free st2 16 in
    GET_ALLOC (mem st3) (HDRP 16) = 0 /\
    GET_SIZE (mem st3) (HDRP 16) = 16 /\
    FTRP (mem st3) 16 = 24 /\
    NEXT_BLKP (mem st3) 16 = 32 /\
    GET_ALLOC (mem st3) (HDRP 32) = 0 /\
    GET_SIZE (mem st3) (HDRP 32) = 16.
Proof.
  intros Hcap Hfuel.
  destruct (split_scenario m0 cap fuel Hcap Hfuel) as (E0 & E1 & E2).
  exists (init_state m0 cap), (split_st1 m0 cap), (split_st2 m0 cap).
  repeat split; try assumption; vm_compute; reflexivity.
Qed.

Lemma mm_free_does_not_merge_successor_witness :
  exists st0 st1 st2,
    mm_init (mem_init zero_arena 48) = (st0, 0) /\
    mm_malloc 3 st0 24 = Ret (st1, Some 16) /\
    mm_malloc 3 (mm_free st1 16) 8 = Ret (st2, Some 16) /\
    (GET_ALLOC (mem st2) (HDRP 16) = 1 /\
     GET_SIZE (mem st2) (HDRP 16) = 16 /\
     NEXT_BLKP (mem st2) 16 = 32 /\
     GET_ALLOC (mem st2) (HDRP 32) = 0 /\
     GET_SIZE (mem st2) (HDRP 32) = 16 /\
     FTRP (mem st2) 32 = 40) /\
    let st3 := mm_free st2 16 in
    GET_ALLOC (mem st3) (HDRP 16) = 0 /\
    GET_SIZE (mem st3) (HDRP 16) = 16 /\
    FTRP (mem st3) 16 = 24 /\
    NEXT_BLKP (mem st3) 16 = 32 /\
    GET_ALLOC (mem st3) (HDRP 32) = 0 /\
    GET_SIZE (mem st3) (HDRP 32) = 16.
Proof.
  apply (mm_free_does_not_merge_successor zero_arena 48 3); lia.
Defined.

(** C2.  The state reached by [init; p = malloc(24); free(p);
    q = malloc(8); free(q)] has two consecutive free blocks (at 16 and at
    32) between the prologue and the epilogue. *)
Theorem adjacent_free_blocks_reachable
  (m0 : memory) (cap : Z) (fuel : nat) :
  48 <= cap -> (3 <= fuel)%nat ->
  exists st0 st1 st2,
    mm_init (mem_init m0 cap) = (st0, 0) /\
    mm_malloc fuel st0 24 = Ret (st1, Some 16) /\
    mm_malloc fuel (mm_free st1 16) 8 = Ret (st2, Some 16) /\
    let st3 := mm_free st2 16 in
    before_epilogue (mem st3) (heap_startp st3) 2 /\
    both_free (mem st3) (walk (mem st3) (heap_startp st3) 1) = true /\
    ~ no_adjacent_free st3.
Proof.
  intros Hcap Hfuel.
  destruct (split_scenario m0 cap fuel Hcap Hfuel) as (E0 & E1 & E2).
  exists (init_state m0 cap), (split_st1 m0 cap), (split_st2 m0 cap).
  repeat (split; [assumption |]).
  set (st3 := mm_free (split_st2 m0 cap) 16).
  assert (B : before_epilogue (mem st3) (heap_startp st3) 2).
  { intros i Hi.
    destruct i as [| [| [| i]]]; [vm_compute; discriminate .. | lia]. }
  assert (F : both_free (mem st3) (walk (mem st3) (heap_startp st3) 1) = true)
    by (vm_compute; reflexivity).
  split; [exact B |]. split; [exact F |].
  intros H. specialize (H 1%nat B). rewrite F in H. discriminate.
Qed.

Lemma adjacent_free_blocks_reachable_witness :
  exists st0 st1 st2,
    mm_init (mem_init zero_arena 48) = (st0, 0) /\
    mm_malloc 3 st0 24 = Ret (st1, Some 16) /\
    mm_malloc 3 (mm_free st1 16) 8 = Ret (st2, Some 16) /\
    let st3 := mm_free st2 16 in
    before_epilogue (mem st3) (heap_startp st3) 2 /\
    both_free (mem st3) (walk (mem st3) (heap_startp st3) 1) = true /\
    ~ no_adjacent_free st3.
Proof.
  apply (adjacent_free_blocks_reachable zero_arena 48 3); lia.
Defined.

(** C8.  On a freshly initialised heap, whatever the arena held:
    [p = mm_malloc(16)] returns the pointer at offset 16 to a block it has
    just laid down at the old break (24 bytes, allocated, break now 40);
    [mm_free(p)] marks that block free; the search of [mm_malloc(8)] then
    stops at that very block, and the call returns [p] again, with the block
    allocated at the needed size and the break where it was before the
    call. *)
Theorem malloc_free_malloc_reuses_block
  (m0 : memory) (cap : Z) (fuel : nat) :
  40 <= cap -> (3 <= fuel)%nat ->
  exists st0 st1 st3,
    mm_init (mem_init m0 cap) = (st0, 0) /\
    mm_malloc fuel st0 16 = Ret (st1, Some 16) /\
    (mem_brk st1 = 40 /\
     GET_SIZE (mem st1) (HDRP 16) = 24 /\
     GET_ALLOC (mem st1) (HDRP 16) = 1 /\
     GET (mem st1) (FTRP (mem st1) 16) = GET (mem st1) (HDRP 16)) /\
    let st2 := mm_free st1 16 in
    (mem_brk st2 = 40 /\
     GET_SIZE (mem st2) (HDRP 16) = 24 /\
     GET_ALLOC (mem st2) (HDRP 16) = 0) /\
    find_fit fuel (mem st2) (heap_startp st2) (request_size 8)
    = Some (Some 16) /\
    mm_malloc fuel st2 8 = Ret (st3, Some 16) /\
    mem_brk st3 = mem_brk st2 /\
    GET_SIZE (mem st3) (HDRP 16) = request_size 8 /\
    GET_ALLOC (mem st3) (HDRP 16) = 1 /\
    GET (mem st3) (FTRP (mem st3) 16) = GET (mem st3) (HDRP 16).
Proof.
  intros Hcap Hfuel.
  exists (init_state m0 cap), (reuse_st1 m0 cap), (reuse_st3 m0 cap).
  split; [apply mm_init_ok; lia |].
  split.
  { apply (mm_malloc_enough 3); [| assumption].
    apply (mm_malloc_grow 3 (init_state m0 cap) 16 24);
      [vm_compute; reflexivity | vm_compute; reflexivity | lia | simpl; lia]. }
  split; [repeat split; vm_compute; reflexivity |].
  cbv zeta.
  split; [repeat split; vm_compute; reflexivity |].
  assert (F : find_fit 3 (mem (mm_free (reuse_st1 m0 cap) 16))
                (heap_startp (mm_free (reuse_st1 m0 cap) 16))
                (request_size 8) = Some (Some 16))
    by (vm_compute; reflexivity).
  split; [apply (find_fit_mono _ _ 3); assumption |].
  split.
  { apply (mm_malloc_enough 3); [| assumption].
    apply mm_malloc_take. exact F. }
  repeat split; vm_compute; reflexivity.
Qed.

Lemma malloc_free_malloc_reuses_block_witness :
  exists st0 st1 st3,
    mm_init (mem_init zero_arena 40) = (st0, 0) /\
    mm_malloc 3 st0 16 = Ret (st1, Some 16) /\
    (mem_brk st1 = 40 /\
     GET_SIZE (mem st1) (HDRP 16) = 24 /\
     GET_ALLOC (mem st1) (HDRP 16) = 1 /\
     GET (mem st1) (FTRP (mem st1) 16) = GET (mem st1) (HDRP 16)) /\
    let st2 := mm_free st1 16 in
    (mem_brk st2 = 40 /\
     GET_SIZE (mem st2) (HDRP 16) = 24 /\
     GET_ALLOC (mem st2) (HDRP 16) = 0) /\
    find_fit 3 (mem st2) (heap_startp st2) (request_size 8)
    = Some (Some 16) /\
    mm_malloc 3 st2 8 = Ret (st3, Some 16) /\
    mem_brk st3 = mem_brk st2 /\
    GET_SIZE (mem st3) (HDRP 16) = request_size 8 /\
    GET_ALLOC (mem st3) (HDRP 16) = 1 /\
    GET (mem st3) (FTRP (mem st3) 16) = GET (mem st3) (HDRP 16).
Proof.
  apply (malloc_free_malloc_reuses_block zero_arena 40 3); lia.
Defined.

(** C4.  After [init; p = malloc(0); free(p)] the last block of the heap
    (8 bytes, at 16) is free and ends where the last word of the arena
    begins; where that word has size zero, the search of [mm_malloc(24)]
    finds no fit and calls [extend_heap 32].  [extend_heap 32] asks
    [mem_sbrk] for the full 32 bytes, not for 32 less the 8 of the free
    tail, and writes the new epilogue tag at the new break (56), one word
    past the end of the free block it returns: the word right after that
    block (at 52) is left as the arena had it. *)
Theorem extend_heap_epilogue_misplaced
  (m0 : memory) (cap : Z) (fuel : nat) :
  56 <= cap -> (3 <= fuel)%nat ->
  exists st0 st1 st3,
    mm_init (mem_init m0 cap) = (st0, 0) /\
    mm_malloc fuel st0 0 = Ret (st1, Some 16) /\
    let st2 := mm_free st1 16 in
    (GET_ALLOC (mem st2) (HDRP 16) = 0 /\
     GET_SIZE (mem st2) (HDRP 16) = 8 /\
     HDRP (NEXT_BLKP (mem st2) 16) = mem_heap_hi st2 - 3) /\
    (GET_SIZE m0 20 = 0 ->
     find_fit fuel (mem st2) (heap_startp st2) (request_size 24) = Some None /\
     request_size 24 = 32) /\
    grow_request st2 32 = Some 32 /\
    extend_heap st2 32 = Ret (st3, Some 16) /\
    mem_brk st3 = mem_brk st2 + 32 /\
    GET_ALLOC (mem st3) (HDRP 16) = 0 /\
    GET_SIZE (mem st3) (HDRP 16) = 40 /\
    HDRP (NEXT_BLKP (mem st3) 16) = 52 /\
    mem st3 52 = m0 52 /\
    mem st3 56 = PACK 0 1 /\
    mem_heap_hi st3 < 56.
Proof.
  intros Hcap Hfuel.
  exists (init_state m0 cap), (tail_st1 m0 cap), (tail_st3 m0 cap).
  split; [apply mm_init_ok; lia |].
  split.
  { apply (mm_malloc_enough 2); [| lia].
    apply (mm_malloc_grow 2 (init_state m0 cap) 0 8);
      [vm_compute; reflexivity | vm_compute; reflexivity | lia | simpl; lia]. }
  cbv zeta.
  split; [repeat split; vm_compute; reflexivity |].
  split.
  { intros Hz. split; [| vm_compute; reflexivity].
    apply (find_fit_mono _ _ 3); [| assumption].
    set (st2 := mm_free (tail_st1 m0 cap) 16).
    assert (N1 : NEXT_BLKP (mem st2) 8 = 16) by (vm_compute; reflexivity).
    assert (N2 : NEXT_BLKP (mem st2) 16 = 24) by (vm_compute; reflexivity).
    assert (M : mem st2 (HDRP 24) = m0 20) by (vm_compute; reflexivity).
    change (heap_startp st2) with 8.
    rewrite find_fit_step, N1
      by (split; [vm_compute; discriminate | vm_compute; reflexivity]).
    rewrite find_fit_step, N2
      by (split; [vm_compute; discriminate | vm_compute; reflexivity]).
    apply find_fit_stop. unfold GET_SIZE, GET. rewrite M. exact Hz. }
  split; [vm_compute; reflexivity |].
  split.
  { rewrite (extend_heap_ok _ 32 32);
      [reflexivity | vm_compute; reflexivity | lia | simpl; lia]. }
  repeat split; vm_compute; reflexivity.
Qed.

Lemma extend_heap_epilogue_misplaced_witness :
  exists st0 st1 st3,
    mm_init (mem_init zero_arena 56) = (st0, 0) /\
    mm_malloc 3 st0 0 = Ret (st1, Some 16) /\
    let st2 := mm_free st1 16 in
    (GET_ALLOC (mem st2) (HDRP 16) = 0 /\
     GET_SIZE (mem st2) (HDRP 16) = 8 /\
     HDRP (NEXT_BLKP (mem st2) 16) = mem_heap_hi st2 - 3) /\
    (GET_SIZE zero_arena 20 = 0 ->
     find_fit 3 (mem st2) (heap_startp st2) (request_size 24) = Some None /\
     request_size 24 = 32) /\
    grow_request st2 32 = Some 32 /\
    extend_heap st2 32 = Ret (st3, Some 16) /\
    mem_brk st3 = mem_brk st2 + 32 /\
    GET_ALLOC (mem st3) (HDRP 16) = 0 /\
    GET_SIZE (mem st3) (HDRP 16) = 40 /\
    HDRP (NEXT_BLKP (mem st3) 16) = 52 /\
    mem st3 52 = zero_arena 52 /\
    mem st3 56 = PACK 0 1 /\
    mem_heap_hi st3 < 56.
Proof.
  apply (extend_heap_epilogue_misplaced zero_arena 56 3); lia.
Defined.

(** C9.  On an arena of zero pages run [init; p = malloc(16); free(p);
    a = malloc(8); b = malloc(0); free(a); free(b); c = malloc(16)].  The
    heap then holds one allocated 24-byte block, the arena has room for 8
    more bytes, the search finds no free block, and [mm_malloc(0)] ends in
    the failed [assert] of [extend_heap]: no pointer is returned. *)
Theorem malloc_zero_assert_fails (cap : Z) (fuel : nat) :
  48 <= cap -> (3 <= fuel)%nat ->
  exists st0 st1 st3 st4 st7,
    mm_init (mem_init zero_arena cap) = (st0, 0) /\
    mm_malloc fuel st0 16 = Ret (st1, Some 16) /\
    mm_malloc fuel (mm_free st1 16) 8 = Ret (st3, Some 16) /\
    mm_malloc fuel st3 0 = Ret (st4, Some 32) /\
    mm_malloc fuel (mm_free (mm_free st4 16) 32) 16 = Ret (st7, Some 16) /\
    request_size 0 = MIN_BLOCK /\
    mem_brk st7 + 8 <= mem_max_addr st7 /\
    find_fit fuel (mem st7) (heap_startp st7) (request_size 0) = Some None /\
    grow_request st7 (request_size 0) = None /\
    mm_malloc fuel st7 0 = AssertFailed.
Proof.
  intros Hcap Hfuel.
  exists (init_state zero_arena cap), (stale_st1 cap), (stale_st3 cap),
    (stale_st4 cap), (stale_st7 cap).
  split; [apply mm_init_ok; lia |].
  split.
  { apply (mm_malloc_enough 3); [| assumption].
    apply (mm_malloc_grow 3 (init_state zero_arena cap) 16 24);
      [vm_compute; reflexivity | vm_compute; reflexivity | lia | simpl; lia]. }
  do 3 (split; [apply (mm_malloc_enough 3); [| assumption];
                apply mm_malloc_take; vm_compute; reflexivity |]).
  split; [vm_compute; reflexivity |].
  split; [simpl; lia |].
  assert (F : find_fit 3 (mem (stale_st7 cap)) (heap_startp (stale_st7 cap))
                (request_size 0) = Some None) by (vm_compute; reflexivity).
  split; [apply (find_fit_mono _ _ 3); assumption |].
  split; [vm_compute; reflexivity |].
  rewrite (mm_malloc_mono 3 fuel); [vm_compute; reflexivity | | assumption].
  unfold mm_malloc. rewrite F. vm_compute. discriminate.
Qed.

Lemma malloc_zero_assert_fails_witness :
  exists st0 st1 st3 st4 st7,
    mm_init (mem_init zero_arena 48) = (st0, 0) /\
    mm_malloc 3 st0 16 = Ret (st1, Some 16) /\
    mm_malloc 3 (mm_free st1 16) 8 = Ret (st3, Some 16) /\
    mm_malloc 3 st3 0 = Ret (st4, Some 32) /\
    mm_malloc 3 (mm_free (mm_free st4 16) 32) 16 = Ret (st7, Some 16) /\
    request_size 0 = MIN_BLOCK /\
    mem_brk st7 + 8 <= mem_max_addr st7 /\
    find_fit 3 (mem st7) (heap_startp st7) (request_size 0) = Some None /\
    grow_request st7 (request_size 0) = None /\
    mm_malloc 3 st7 0 = AssertFailed.
Proof.
  apply (malloc_zero_assert_fails 48 3); lia.
Defined.

(** * Further properties of the code *)

(** ** [ALIGN] and the size of a request *)

Lemma land_ldiff_ones (y : Z) (n : Z) :
  Z.land y (Z.ldiff (Z.ones n) (Z.ones 3))
  = Z.ldiff (Z.land y (Z.ones n)) (Z.ones 3).
Proof.
  apply Z.bits_inj'. intros i Hi.
  rewrite !Z.land_spec, !Z.ldiff_spec, !Z.land_spec.
  apply andb_assoc.
Qed.

(** Masking the low three bits of an [n]-bit value rounds it down to a
    multiple of 8. *)
Lemma land_mask_div8 (y n : Z) :
  3 <= n -> 0 <= y < 2 ^ n ->
  Z.land y (Z.ldiff (Z.ones n) (Z.ones 3)) = 8 * (y / 8).
Proof.
  intros Hn Hy. rewrite land_ldiff_ones.
  rewrite Z.land_ones by lia. rewrite Z.mod_small by exact Hy.
  rewrite Z.ldiff_ones_r by lia.
  rewrite Z.shiftl_mul_pow2, Z.shiftr_div_pow2 by lia.
  change (2 ^ 3) with 8. lia.
Qed.

Lemma ALIGN_div8 (x : Z) : ALIGN x = 8 * (usize (x + 7) / 8).
Proof.
  unfold ALIGN.
  change (usize (Z.lnot 7)) with (Z.ldiff (Z.ones 64) (Z.ones 3)).
  change (ALIGNMENT - 1) with 7.
  apply land_mask_div8; [lia |]. unfold usize. apply Z.mod_pos_bound. lia.
Qed.

(** X1.  Where [x + 7] does not wrap, [ALIGN x] is the least multiple of 8
    that is at least [x]. *)
Theorem ALIGN_rounds_up (x : Z) :
  0 <= x <= 2 ^ 64 - 8 ->
  ALIGN x mod 8 = 0 /\ x <= ALIGN x < x + 8 /\
  (forall y, y mod 8 = 0 -> x <= y -> ALIGN x <= y).
Proof.
  intros Hx. rewrite ALIGN_div8. unfold usize.
  rewrite (Z.mod_small (x + 7)) by lia.
  pose proof (Z.div_mod (x + 7) 8 ltac:(lia)) as D.
  pose proof (Z.mod_pos_bound (x + 7) 8 ltac:(lia)) as B.
  split; [rewrite Z.mul_comm; apply Z_mod_mult |].
  split; [lia |].
  intros y Hy Hle.
  pose proof (Z.div_mod y 8 ltac:(lia)) as Dy. rewrite Hy in Dy.
  assert ((x + 7) / 8 <= y / 8); [| lia].
  apply Z.div_le_lower_bound; lia.
Qed.

Lemma ALIGN_rounds_up_witness :
  ALIGN 13 mod 8 = 0 /\ 13 <= ALIGN 13 < 13 + 8 /\
  (forall y, y mod 8 = 0 -> 13 <= y -> ALIGN 13 <= y).
Proof. apply (ALIGN_rounds_up 13). lia. Defined.

Lemma sint_range (z : Z) : - 2 ^ 31 <= sint z < 2 ^ 31.
Proof.
  unfold sint. pose proof (Z.mod_pos_bound (z + 2 ^ 31) (2 ^ 32) ltac:(lia)).
  lia.
Qed.

Lemma sint_id (z : Z) : - 2 ^ 31 <= z < 2 ^ 31 -> sint z = z.
Proof. intros H. unfold sint. rewrite Z.mod_small; lia. Qed.

Lemma request_size_small (size : Z) :
  0 <= size <= 2 ^ 31 - 16 -> request_size size = 8 * ((size + 15) / 8).
Proof.
  intros H. unfold request_size. rewrite ALIGN_div8. unfold usize.
  rewrite (Z.mod_small (size + 8)) by lia.
  rewrite (Z.mod_small (size + 8 + 7)) by lia.
  replace (size + 8 + 7) with (size + 15) by lia.
  pose proof (Z.div_mod (size + 15) 8 ltac:(lia)) as D.
  pose proof (Z.mod_pos_bound (size + 15) 8 ltac:(lia)) as B.
  apply sint_id. lia.
Qed.

Lemma request_size_mul8 (size : Z) : request_size size mod 8 = 0.
Proof. rewrite <- land7_mod. apply request_size_aligned. Qed.

(** X2.  For a request of at most [2^31 - 16] bytes, [mm_malloc] computes
    the block size as the request plus 8 bytes of tags, rounded up to a
    multiple of 8: room for the payload, less than 16 bytes of overhead,
    never below [MIN_BLOCK]. *)
Theorem request_size_in_range (size : Z) :
  0 <= size <= 2 ^ 31 - 16 ->
  request_size size = 8 * ((size + 15) / 8) /\
  size + 8 <= request_size size < size + 16 /\
  MIN_BLOCK <= request_size size.
Proof.
  intros H. rewrite (request_size_small size H).
  pose proof (Z.div_mod (size + 15) 8 ltac:(lia)) as D.
  pose proof (Z.mod_pos_bound (size + 15) 8 ltac:(lia)) as B.
  unfold MIN_BLOCK. repeat split; lia.
Qed.

Lemma request_size_in_range_witness :
  request_size 13 = 8 * ((13 + 15) / 8) /\
  13 + 8 <= request_size 13 < 13 + 16 /\
  MIN_BLOCK <= request_size 13.
Proof. apply (request_size_in_range 13). lia. Defined.

(** X3.  The block size is kept in an [int]: for a [size_t] request, the
    computed block has room for the payload and its two tags exactly when
    the request is at most [2^31 - 16] bytes. *)
Theorem request_size_covers_iff (size : Z) :
  0 <= size < 2 ^ 64 ->
  (size + 8 <= request_size size <-> size <= 2 ^ 31 - 16).
Proof.
  intros H. split.
  - intros Hc.
    pose proof (sint_range (ALIGN (usize (size + 8)))) as R.
    fold (request_size size) in R.
    pose proof (request_size_mul8 size) as M.
    pose proof (Z.div_mod (request_size size) 8 ltac:(lia)) as D.
    rewrite M in D. lia.
  - intros Hs. rewrite request_size_small by lia.
    pose proof (Z.div_mod (size + 15) 8 ltac:(lia)) as D.
    pose proof (Z.mod_pos_bound (size + 15) 8 ltac:(lia)) as B. lia.
Qed.

Lemma request_size_covers_iff_witness :
  2 ^ 31 + 8 <= request_size (2 ^ 31) <-> 2 ^ 31 <= 2 ^ 31 - 16.
Proof. apply (request_size_covers_iff (2 ^ 31)). lia. Defined.

(** ** Tags *)

Lemma tag_alloc_aligned (s : Z) : Z.land s 7 = 0 -> tag_alloc s = 0.
Proof.
  intros H. unfold tag_alloc. change 1 with (Z.land 7 1).
  rewrite Z.land_assoc, H. reflexivity.
Qed.

(** X4.  A tag written with [PUT(p, PACK(size, alloc))] reads back through
    [GET_SIZE] and [GET_ALLOC] as the size and the bit that were packed, for
    every aligned 32-bit size; no other word changes. *)
Theorem PACK_round_trip (m : memory) (p s a : Z) :
  Z.land s 7 = 0 -> 0 <= s < 2 ^ 32 -> a = 0 \/ a = 1 ->
  GET_SIZE (PUT m p (PACK s a)) p = s /\
  GET_ALLOC (PUT m p (PACK s a)) p = a /\
  (forall q, q <> p -> GET (PUT m p (PACK s a)) q = GET m q).
Proof.
  intros Hs Hr Ha. split; [| split].
  - rewrite GET_SIZE_PUT_same, tag_size_PACK by exact Ha.
    rewrite tag_size_aligned by exact Hs. apply uint_small, Hr.
  - rewrite GET_ALLOC_PUT_same. destruct Ha as [-> | ->].
    + rewrite PACK_0. apply tag_alloc_aligned, Hs.
    + apply tag_alloc_PACK_1.
  - intros q Hq. unfold GET. apply PUT_other, Hq.
Qed.

Lemma PACK_round_trip_witness :
  GET_SIZE (PUT zero_arena 12 (PACK 24 1)) 12 = 24 /\
  GET_ALLOC (PUT zero_arena 12 (PACK 24 1)) 12 = 1 /\
  (forall q, q <> 12 -> GET (PUT zero_arena 12 (PACK 24 1)) q
                        = GET zero_arena q).
Proof.
  apply (PACK_round_trip zero_arena 12 24 1);
    [reflexivity | lia | right; reflexivity].
Defined.

(** ** [mm_init] *)

(** X5.  [mm_init] returns -1 and leaves the state alone when [mem_sbrk]
    refuses its 16 bytes.  Otherwise it returns 0 and the heap it leaves is
    empty: an allocated 8-byte prologue whose footer repeats its header, an
    allocated zero-size epilogue right after it, so that every search ends
    without a fit and no two neighbours are both free. *)
Theorem mm_init_empty_heap (st : state) :
  (mem_sbrk st 16 = None -> mm_init st = (st, -1)) /\
  (mem_sbrk st 16 <> None ->
   exists st',
     mm_init st = (st', 0) /\
     heap_startp st' = 8 /\
     mem_brk st' = mem_brk st + 16 /\
     live_block (mem st') 8 /\
     GET_SIZE (mem st') (HDRP 8) = 8 /\
     GET (mem st') (FTRP (mem st') 8) = GET (mem st') (HDRP 8) /\
     GET_SIZE (mem st') (HDRP (NEXT_BLKP (mem st') 8)) = 0 /\
     GET_ALLOC (mem st') (HDRP (NEXT_BLKP (mem st') 8)) = 1 /\
     (forall fuel newsize,
         (2 <= fuel)%nat ->
         find_fit fuel (mem st') (heap_startp st') newsize = Some None) /\
     no_adjacent_free st').
Proof.
  split.
  - intros H. unfold mm_init. change (4 * 4) with 16. rewrite H. reflexivity.
  - intros H. unfold mm_init. change (4 * 4) with 16.
    destruct (mem_sbrk st 16) as [[st1 p] |] eqn:E; [| contradiction].
    unfold mem_sbrk in E.
    destruct ((16 <? 0) || (mem_max_addr st <? mem_brk st + 16));
      [discriminate |].
    inversion E; subst st1 p. clear E H.
    eexists. split; [reflexivity |].
    cbn [heap_startp mem_brk mem set_heap_startp set_mem mem_heap_lo].
    match goal with |- context [live_block ?m0 8] => set (m' := m0) end.
    assert (S8 : GET_SIZE m' (HDRP 8) = 8) by (vm_compute; reflexivity).
    assert (A8 : GET_ALLOC m' (HDRP 8) = 1) by (vm_compute; reflexivity).
    assert (N8 : NEXT_BLKP m' 8 = 16) by (vm_compute; reflexivity).
    assert (S16 : GET_SIZE m' (HDRP 16) = 0) by (vm_compute; reflexivity).
    split; [reflexivity |]. split; [reflexivity |].
    split; [split; [exact A8 | rewrite S8; lia] |].
    split; [exact S8 |].
    split; [vm_compute; reflexivity |].
    split; [rewrite N8; exact S16 |].
    split; [vm_compute; reflexivity |].
    split.
    + intros fuel newsize Hfuel.
      apply (find_fit_mono _ _ 2); [| exact Hfuel].
      change (find_fit 2 m' 8 newsize = Some None).
      rewrite find_fit_step, N8.
      * apply find_fit_stop, S16.
      * split; [rewrite S8; discriminate |].
        unfold fits. rewrite A8. reflexivity.
    + intros i Hb. exfalso. apply (Hb 1%nat); [lia |].
      change (GET_SIZE m' (HDRP (NEXT_BLKP m' 8)) = 0).
      rewrite N8. exact S16.
Qed.

Lemma mm_init_empty_heap_witness :
  mm_init full_arena = (full_arena, -1) /\
  exists st',
    mm_init (mem_init zero_arena 16) = (st', 0) /\
    heap_startp st' = 8.
Proof.
  split.
  - apply (proj1 (mm_init_empty_heap full_arena)). vm_compute. reflexivity.
  - destruct (proj2 (mm_init_empty_heap (mem_init zero_arena 16)))
      as (st' & H0 & H1 & _).
    + vm_compute. discriminate.
    + exists st'. split; assumption.
Defined.

(** ** The search loop and the heap printer *)

Lemma extend_heap_returns (st : state) (newsize : Z) :
  extend_heap st newsize <> OutOfFuel.
Proof.
  unfold extend_heap. destruct (grow_request st newsize); [| discriminate].
  destruct (mem_sbrk st z) as [[st1 bp] |]; [| discriminate].
  destruct (coalesce _ bp). discriminate.
Qed.

Lemma find_fit_terminates (m : memory) (newsize : Z) (j : nat) :
  forall cur fuel,
    GET_SIZE m (HDRP (walk m cur j)) = 0 -> (j < fuel)%nat ->
    exists r, find_fit fuel m cur newsize = Some r.
Proof.
  induction j as [| j IH]; intros cur fuel Hz Hf;
    (destruct fuel as [| fuel]; [lia |]); simpl in *.
  - apply Z.eqb_eq in Hz. rewrite Hz. eexists. reflexivity.
  - destruct (GET_SIZE m (HDRP cur) =? 0); [eexists; reflexivity |].
    destruct (fits m newsize cur); [eexists; reflexivity |].
    apply IH; [exact Hz | lia].
Qed.

(** X6.  The search loop of [mm_malloc] comes to an end as soon as some
    header on the way from [heap_startp] has size zero: with more iterations
    than that header is blocks away, the call returns or stops at the
    assertion, for every request. *)
Theorem mm_malloc_terminates (fuel : nat) (st : state) (size : Z) (j : nat) :
  GET_SIZE (mem st) (HDRP (walk (mem st) (heap_startp st) j)) = 0 ->
  (j < fuel)%nat ->
  mm_malloc fuel st size <> OutOfFuel.
Proof.
  intros Hz Hf. unfold mm_malloc.
  destruct (find_fit_terminates (mem st) (request_size size) j
              (heap_startp st) fuel Hz Hf) as [r Hr].
  rewrite Hr. destruct r as [current |]; [discriminate |].
  pose proof (extend_heap_returns st (request_size size)) as He.
  destruct (extend_heap st (request_size size)) as [[st1 [bp |]] | |];
    try discriminate.
  contradiction.
Qed.

Lemma mm_malloc_terminates_witness : mm_malloc 3 one_block 100 <> OutOfFuel.
Proof.
  apply (mm_malloc_terminates 3 one_block 100 2).
  - vm_compute. reflexivity.
  - lia.
Defined.

Lemma line_fits_print_block (m : memory) (newsize bp : Z) :
  line_fits newsize (print_block m bp) = fits m newsize bp.
Proof. reflexivity. Qed.

Lemma print_heap_from_find (m : memory) (newsize : Z) (fuel : nat) :
  forall cur ls e,
    print_heap_from fuel m cur = Some (ls, e) ->
    find_fit fuel m cur newsize
    = Some (option_map line_bp (find (line_fits newsize) ls)).
Proof.
  induction fuel as [| fuel IH]; intros cur ls e H; [discriminate |].
  simpl in *.
  destruct (GET_SIZE m (HDRP cur) =? 0).
  - inversion H; subst. reflexivity.
  - destruct (print_heap_from fuel m (NEXT_BLKP m cur)) as [[ls' e'] |] eqn:E;
      [| discriminate].
    inversion H; subst ls e. simpl.
    rewrite line_fits_print_block.
    destruct (fits m newsize cur); [reflexivity |].
    apply (IH _ _ _ E).
Qed.

(** X7.  [mm_malloc] chooses what [print_heap] shows: when [print_heap]
    lists the heap, the search ends on the first listed block whose line
    says free with a header size of at least the needed size, and
    [mm_malloc] returns that block without moving the break; when no line
    is like that the search finds nothing. *)
Theorem mm_malloc_picks_first_printed
  (fuel : nat) (st : state) (size : Z) (ls : list block_line) (e : Z) :
  print_heap fuel st = Some (ls, e) ->
  let newsize := request_size size in
  find_fit fuel (mem st) (heap_startp st) newsize
  = Some (option_map line_bp (find (line_fits newsize) ls)) /\
  (forall l, find (line_fits newsize) ls = Some l ->
             exists st', mm_malloc fuel st size = Ret (st', Some (line_bp l)) /\
                         mem_brk st' = mem_brk st).
Proof.
  intros H newsize.
  pose proof (print_heap_from_find (mem st) newsize fuel _ _ _ H) as F.
  split; [exact F |].
  intros l Hl. rewrite Hl in F. simpl in F.
  destruct (mm_malloc_found fuel st size _ F) as (st' & Hm & Hb & _).
  exists st'. split; assumption.
Qed.

Lemma mm_malloc_picks_first_printed_witness :
  let newsize := request_size 8 in
  find_fit 3 (mem one_free_block) (heap_startp one_free_block) newsize
  = Some (option_map line_bp
            (find (line_fits newsize)
                  [print_block (mem one_free_block) 8;
                   print_block (mem one_free_block) 16])) /\
  (forall l, find (line_fits newsize)
                  [print_block (mem one_free_block) 8;
                   print_block (mem one_free_block) 16] = Some l ->
             exists st',
               mm_malloc 3 one_free_block 8 = Ret (st', Some (line_bp l)) /\
               mem_brk st' = mem_brk one_free_block).
Proof.
  apply (mm_malloc_picks_first_printed 3 one_free_block 8 _ 36).
  vm_compute. reflexivity.
Defined.

Lemma print_heap_from_lines (m : memory) (fuel : nat) :
  forall cur ls e,
    print_heap_from fuel m cur = Some (ls, e) ->
    Forall (fun l => cur <= line_bp l /\ 0 < line_hsize l) ls /\
    StronglySorted Z.lt (map line_bp ls) /\
    map line_bp ls = map (walk m cur) (seq 0 (length ls)) /\
    e = HDRP (walk m cur (length ls)) /\
    GET_SIZE m e = 0.
Proof.
  induction fuel as [| fuel IH]; intros cur ls e H; [discriminate |].
  simpl in H.
  destruct (GET_SIZE m (HDRP cur) =? 0) eqn:E0.
  - inversion H; subst ls e. apply Z.eqb_eq in E0.
    repeat split; try constructor. exact E0.
  - destruct (print_heap_from fuel m (NEXT_BLKP m cur)) as [[ls' e'] |] eqn:E;
      [| discriminate].
    inversion H; subst ls e. clear H.
    destruct (IH _ _ _ E) as (Hall & Hsorted & Hmap & He & Hz).
    apply Z.eqb_neq in E0.
    pose proof (GET_SIZE_range m (HDRP cur)) as R.
    assert (Hnext : cur < NEXT_BLKP m cur) by (unfold NEXT_BLKP; lia).
    repeat split.
    + constructor; [simpl; lia |].
      eapply Forall_impl; [| exact Hall]. simpl. intros l [H1 H2]. lia.
    + simpl. constructor; [exact Hsorted |].
      apply Forall_forall. intros b Hb. apply in_map_iff in Hb.
      destruct Hb as (l & <- & Hl).
      rewrite Forall_forall in Hall. destruct (Hall l Hl). lia.
    + simpl. f_equal. rewrite <- seq_shift, map_map. exact Hmap.
    + exact He.
    + exact Hz.
Qed.

(** X8.  What [print_heap] prints is the implicit list: the blocks come in
    strictly increasing address order, block [i] of the listing is the block
    [i] steps of [NEXT_BLKP] from [heap_startp], every listed block has a
    non-zero header size, and the address given for the epilogue header is
    the header right after the last listed block, of size zero. *)
Theorem print_heap_lists_blocks
  (fuel : nat) (st : state) (ls : list block_line) (e : Z) :
  print_heap fuel st = Some (ls, e) ->
  StronglySorted Z.lt (map line_bp ls) /\
  map line_bp ls
  = map (walk (mem st) (heap_startp st)) (seq 0 (length ls)) /\
  Forall (fun l => 0 < line_hsize l) ls /\
  e = HDRP (walk (mem st) (heap_startp st) (length ls)) /\
  GET_SIZE (mem st) e = 0.
Proof.
  intros H.
  destruct (print_heap_from_lines _ _ _ _ _ H) as (Hall & Hs & Hm & He & Hz).
  repeat split; try assumption.
  eapply Forall_impl; [| exact Hall]. simpl. intros l [_ H2]. exact H2.
Qed.

Lemma print_heap_lists_blocks_witness :
  let ls := [print_block (mem one_block) 8; print_block (mem one_block) 16] in
  StronglySorted Z.lt (map line_bp ls) /\
  map line_bp ls
  = map (walk (mem one_block) (heap_startp one_block)) (seq 0 (length ls)) /\
  Forall (fun l => 0 < line_hsize l) ls /\
  36 = HDRP (walk (mem one_block) (heap_startp one_block) (length ls)) /\
  GET_SIZE (mem one_block) 36 = 0.
Proof.
  apply (print_heap_lists_blocks 3 one_block). vm_compute. reflexivity.
Defined.

(** ** Alignment *)

Lemma walk_mod8 (m : memory) (i : nat) :
  forall cur, (walk m cur i - cur) mod 8 = 0.
Proof.
  induction i as [| i IH]; intros cur; simpl.
  - rewrite Z.sub_diag. reflexivity.
  - destruct (GET_SIZE_mul8 m (HDRP cur)) as [q Hq].
    pose proof (IH (NEXT_BLKP m cur)) as H. unfold NEXT_BLKP in *.
    rewrite Hq in *.
    replace (walk m (cur + 8 * q) i - cur)
      with (walk m (cur + 8 * q) i - (cur + 8 * q) + q * 8) by lia.
    rewrite Z_mod_plus_full. exact H.
Qed.

Lemma find_fit_on_walk (m : memory) (newsize : Z) (fuel : nat) :
  forall cur current,
    find_fit fuel m cur newsize = Some (Some current) ->
    exists k, current = walk m cur k /\ (k < fuel)%nat /\
              before_epilogue m cur k /\
              (forall i, (i < k)%nat -> fits m newsize (walk m cur i) = false).
Proof.
  induction fuel as [| fuel IH]; intros cur current H; [discriminate |].
  simpl in H.
  destruct (GET_SIZE m (HDRP cur) =? 0) eqn:E0; [discriminate |].
  apply Z.eqb_neq in E0.
  destruct (fits m newsize cur) eqn:Ef.
  - inversion H; subst current. exists O.
    repeat split; [lia | | intros i Hi; lia].
    intros i Hi. replace i with O by lia. exact E0.
  - destruct (IH _ _ H) as (k & Hk & Hlt & Hb & Hn).
    exists (S k). repeat split; [exact Hk | lia | |].
    + intros [| i] Hi; [exact E0 | apply Hb; lia].
    + intros [| i] Hi; [exact Ef | apply Hn; lia].
Qed.

(** X9.  A pointer that [mm_malloc] hands out by reuse lies a multiple of 8
    bytes after [heap_startp]: with [heap_startp] aligned to 8, as [mm_init]
    leaves it, every reused payload pointer is aligned to 8. *)
Theorem mm_malloc_reuse_aligned
  (fuel : nat) (st : state) (size current : Z) :
  heap_startp st mod 8 = 0 ->
  find_fit fuel (mem st) (heap_startp st) (request_size size)
  = Some (Some current) ->
  exists st', mm_malloc fuel st size = Ret (st', Some current) /\
              current mod 8 = 0.
Proof.
  intros Ha H.
  destruct (mm_malloc_found fuel st size current H) as (st' & Hm & _).
  exists st'. split; [exact Hm |].
  destruct (find_fit_on_walk _ _ _ _ _ H) as (k & -> & _).
  pose proof (walk_mod8 (mem st) k (heap_startp st)) as W.
  set (w := walk (mem st) (heap_startp st) k) in *.
  replace w with ((w - heap_startp st) + heap_startp st) by lia.
  rewrite Z.add_mod, W, Ha by lia. reflexivity.
Qed.

Lemma mm_malloc_reuse_aligned_witness :
  exists st', mm_malloc 3 one_free_block 8 = Ret (st', Some 16) /\
              16 mod 8 = 0.
Proof.
  apply (mm_malloc_reuse_aligned 3 one_free_block 8 16);
    vm_compute; reflexivity.
Defined.

(** ** free, then allocate *)

Lemma walk_ext (m m1 : memory) (i : nat) :
  forall cur,
    (forall i', (i' < i)%nat ->
                m1 (HDRP (walk m cur i')) = m (HDRP (walk m cur i'))) ->
    walk m1 cur i = walk m cur i.
Proof.
  induction i as [| i IH]; intros cur H; [reflexivity |].
  simpl.
  assert (N : NEXT_BLKP m1 cur = NEXT_BLKP m cur).
  { pose proof (H O ltac:(lia)) as H0. simpl in H0.
    unfold NEXT_BLKP. rewrite !GET_SIZE_tag, H0. reflexivity. }
  rewrite N. apply IH. intros i' Hi'.
  apply (H (S i')). lia.
Qed.

(** X10.  Freeing a block makes it the next first fit: when [ptr] is a live
    block of the list with an allocated predecessor, large enough for a
    request that no earlier block of the list fits, then [mm_free(ptr)]
    followed by [mm_malloc] of that request returns [ptr] again, without
    moving the break. *)
Theorem mm_free_then_malloc_reuses
  (fuel : nat) (st : state) (size : Z) (k : nat) :
  let m := mem st in
  let ptr := walk m (heap_startp st) k in
  let newsize := request_size size in
  before_epilogue m (heap_startp st) k ->
  live_block m ptr ->
  pred_allocated m ptr ->
  uint newsize <= GET_SIZE m (HDRP ptr) ->
  (forall i, (i < k)%nat ->
             fits m newsize (walk m (heap_startp st) i) = false) ->
  (k < fuel)%nat ->
  exists st',
    mm_malloc fuel (mm_free st ptr) size = Ret (st', Some ptr) /\
    mem_brk st' = mem_brk st.
Proof.
  intros m ptr newsize. subst m ptr.
  remember (heap_startp st) as cur eqn:Ecur.
  remember (mem st) as m eqn:Em.
  remember (walk m cur k) as ptr eqn:Eptr.
  symmetry in Ecur, Em, Eptr.
  intros Hb Hlive Hpred Hsz Hno Hfuel.
  set (st1 := mm_free st ptr).
  assert (Hm1 : mem st1 = mark_free m ptr).
  { unfold st1. rewrite <- Em. apply mm_free_mark; rewrite Em; assumption. }
  assert (Hcur : heap_startp st1 = heap_startp st) by reflexivity.
  destruct Hlive as [_ Hpos].
  destruct (GET_SIZE_mul8 m (HDRP ptr)) as [q Hq].
  (* headers of the earlier blocks are untouched *)
  assert (Hhdr : forall i, (i < k)%nat ->
                           mem st1 (HDRP (walk m cur i))
                           = m (HDRP (walk m cur i))).
  { intros i Hi. rewrite Hm1, mark_free_spec.
    pose proof (walk_increasing m k cur i Hb Hi) as Hlt. rewrite Eptr in Hlt.
    replace ((HDRP (walk m cur i) =? HDRP ptr)
             || (HDRP (walk m cur i) =? ptr + GET_SIZE m (HDRP ptr) - 8))
      with false; [reflexivity |].
    symmetry. apply orb_false_iff. unfold HDRP in *.
    split; apply Z.eqb_neq; lia. }
  assert (Hwalk : forall i, (i <= k)%nat -> walk (mem st1) cur i = walk m cur i).
  { intros i Hi. apply walk_ext. intros i' Hi'. apply Hhdr. lia. }
  assert (Hptr : mem st1 (HDRP ptr) = GET_SIZE m (HDRP ptr)).
  { rewrite Hm1, mark_free_spec, Z.eqb_refl. reflexivity. }
  assert (Hsame : GET_SIZE (mem st1) (HDRP ptr) = GET_SIZE m (HDRP ptr)).
  { rewrite GET_SIZE_tag, Hptr, GET_SIZE_tag. apply tag_size_idem. }
  assert (Hfree : GET_ALLOC (mem st1) (HDRP ptr) = 0).
  { rewrite GET_ALLOC_tag, Hptr, GET_SIZE_tag. apply tag_alloc_tag_size. }
  assert (Hb1 : before_epilogue (mem st1) cur k).
  { intros i Hi. rewrite (Hwalk i Hi).
    destruct (Nat.eq_dec i k) as [-> | Hne].
    - rewrite Eptr, Hsame. lia.
    - rewrite GET_SIZE_tag, Hhdr by lia. apply Hb. lia. }
  assert (Hf1 : fits (mem st1) newsize (walk (mem st1) cur k) = true).
  { rewrite (Hwalk k) by lia. rewrite Eptr. unfold fits.
    rewrite Hfree, Hsame.
    apply andb_true_intro. split; [reflexivity | apply Z.leb_le, Hsz]. }
  destruct (find_fit_first (mem st1) newsize k cur fuel Hb1 Hf1 Hfuel)
    as (k' & Hk' & Hfk' & _ & Hfind).
  assert (k' = k).
  { destruct (Nat.eq_dec k' k) as [E | Hne]; [exact E | exfalso].
    assert (Hlt : (k' < k)%nat) by lia.
    rewrite (Hwalk k') in Hfk' by lia.
    unfold fits in Hfk'.
    rewrite GET_ALLOC_tag, GET_SIZE_tag, (Hhdr k' Hlt) in Hfk'.
    pose proof (Hno k' Hlt) as Hn. unfold fits in Hn.
    rewrite GET_ALLOC_tag, GET_SIZE_tag in Hn. congruence. }
  subst k'. rewrite (Hwalk k), Eptr in Hfind by lia.
  destruct (mm_malloc_found fuel st1 size ptr) as (st' & Hm & Hbrk & _).
  { rewrite Hcur, Ecur. exact Hfind. }
  exists st'. split; [exact Hm |]. rewrite Hbrk. reflexivity.
Qed.

Lemma mm_free_then_malloc_reuses_witness :
  exists st',
    mm_malloc 3 (mm_free one_block 16) 8 = Ret (st', Some 16) /\
    mem_brk st' = mem_brk one_block.
Proof.
  apply (mm_free_then_malloc_reuses 3 one_block 8 1).
  - intros i Hi. destruct i as [| [| i]]; [vm_compute; discriminate .. | lia].
  - split; vm_compute; reflexivity.
  - split; vm_compute; reflexivity.
  - vm_compute. discriminate.
  - intros i Hi. replace i with O by lia. vm_compute. reflexivity.
  - lia.
Defined.

(** ** Stores after [place], [split], [coalesce], written pointwise *)

Ltac eqb_cases :=
  repeat match goal with
         | |- context [Z.eqb ?x ?y] =>
             destruct (Z.eqb_spec x y); try lia
         | |- context [Z.ltb ?x ?y] =>
             destruct (Z.ltb_spec x y); try lia
         end.

Lemma uint_PACK_alloc (n : Z) :
  Z.land n 7 = 0 -> uint (PACK n 1) = uint n + 1.
Proof.
  intros H. rewrite uint_PACK by (right; reflexivity). unfold PACK.
  assert (E : Z.land (uint n) 1 = 0).
  { rewrite uint_land, <- Z.land_assoc.
    change (Z.land (Z.ones 32) 1) with (Z.land 7 1).
    rewrite Z.land_assoc, H. reflexivity. }
  pose proof (Z.add_lor_land (uint n) 1) as A. rewrite E in A. lia.
Qed.

Lemma tag_size_mul8_id (s : Z) : 0 <= 8 * s < 2 ^ 32 -> tag_size (8 * s) = 8 * s.
Proof.
  intros H. rewrite tag_size_aligned by apply mul8_land7.
  apply uint_small, H.
Qed.

Lemma place_spec (m : memory) (bp n a : Z) :
  Z.land n 7 = 0 ->
  place m bp n a =
  if (a =? bp - 4) || (a =? bp + uint n - 8) then uint n + 1 else m a.
Proof.
  intros Hn. unfold place, FTRP, HDRP.
  rewrite GET_SIZE_PUT_same, tag_size_PACK by (right; reflexivity).
  rewrite (tag_size_aligned n Hn).
  unfold PUT. rewrite (uint_PACK_alloc n Hn).
  destruct (a =? bp + uint n - 8); [rewrite orb_true_r; reflexivity |].
  rewrite orb_false_r. reflexivity.
Qed.

Lemma place_header (m : memory) (bp n : Z) :
  Z.land n 7 = 0 -> 8 <= uint n ->
  GET_SIZE (place m bp n) (HDRP bp) = uint n /\
  GET_ALLOC (place m bp n) (HDRP bp) = 1 /\
  FTRP (place m bp n) bp = bp + uint n - 8 /\
  place m bp n (bp + uint n - 8) = place m bp n (HDRP bp).
Proof.
  intros Hn H8.
  assert (Hh : place m bp n (HDRP bp) = uint (PACK n 1)).
  { rewrite place_spec, uint_PACK_alloc by exact Hn. unfold HDRP.
    rewrite Z.eqb_refl. reflexivity. }
  assert (Hs : GET_SIZE (place m bp n) (HDRP bp) = uint n).
  { rewrite GET_SIZE_tag, Hh, tag_size_uint, tag_size_PACK
      by (right; reflexivity).
    apply tag_size_aligned, Hn. }
  split; [exact Hs |].
  split; [rewrite GET_ALLOC_tag, Hh; apply tag_alloc_uint_PACK_1 |].
  split; [unfold FTRP; rewrite Hs; reflexivity |].
  rewrite Hh, place_spec, uint_PACK_alloc by exact Hn.
  rewrite Z.eqb_refl, orb_true_r. reflexivity.
Qed.

Lemma split_unfold (m : memory) (bp n : Z) :
  split m bp n =
  let remaining := sint (sint (GET_SIZE m (HDRP bp)) - n) in
  let m2 := place m bp n in
  let m3 := PUT m2 (HDRP (NEXT_BLKP m2 bp)) (PACK remaining 0) in
  PUT m3 (FTRP m3 (NEXT_BLKP m3 bp)) (PACK remaining 0).
Proof. reflexivity. Qed.

Lemma split_spec (m : memory) (bp n a : Z) :
  let fsize := GET_SIZE m (HDRP bp) in
  Z.land n 7 = 0 -> 8 <= uint n -> uint n < fsize ->
  split m bp n a =
  if (a =? bp - 4) || (a =? bp + uint n - 8) then uint n + 1
  else if (a =? bp + uint n - 4) || (a =? bp + fsize - 8) then fsize - uint n
  else m a.
Proof.
  intros fsize Hn H8 Hlt.
  pose proof (GET_SIZE_range m (HDRP bp)) as Hr. fold fsize in Hr.
  destruct (GET_SIZE_mul8 m (HDRP bp)) as [q Hq]. fold fsize in Hq.
  destruct (tag_size_mul8 n) as [r Hr8]. rewrite (tag_size_aligned n Hn) in Hr8.
  assert (Hrem : uint (PACK (sint (sint fsize - n)) 0) = fsize - uint n)
    by (apply split_remaining; [exact Hr | lia]).
  destruct (place_header m bp n Hn H8) as (Hs2 & _ & _ & _).
  rewrite split_unfold. cbv zeta. fold fsize.
  set (R := PACK (sint (sint fsize - n)) 0) in *.
  set (m2 := place m bp n) in *.
  assert (N2 : NEXT_BLKP m2 bp = bp + uint n)
    by (unfold NEXT_BLKP; rewrite Hs2; reflexivity).
  rewrite N2.
  set (m3 := PUT m2 (HDRP (bp + uint n)) R).
  assert (N3 : NEXT_BLKP m3 bp = bp + uint n).
  { unfold NEXT_BLKP, m3. rewrite GET_SIZE_PUT_other by (unfold HDRP; lia).
    rewrite Hs2. reflexivity. }
  assert (F3 : FTRP m3 (bp + uint n) = bp + fsize - 8).
  { unfold FTRP, m3. rewrite GET_SIZE_PUT_same.
    rewrite <- tag_size_uint, Hrem.
    replace (fsize - uint n) with (8 * (q - r)) by lia.
    rewrite tag_size_mul8_id by lia. lia. }
  rewrite N3, F3. unfold m3, PUT at 1 2. rewrite Hrem. unfold HDRP.
  unfold m2. rewrite place_spec by exact Hn.
  eqb_cases; reflexivity.
Qed.

Lemma take_spec (m : memory) (cur n a : Z) :
  let fsize := GET_SIZE m (HDRP cur) in
  Z.land n 7 = 0 -> 8 <= uint n -> uint n <= fsize ->
  take m cur n a =
  if (a =? cur - 4) || (a =? cur + uint n - 8) then uint n + 1
  else if (uint n <? fsize)
          && ((a =? cur + uint n - 4) || (a =? cur + fsize - 8))
       then fsize - uint n
       else m a.
Proof.
  intros fsize Hn H8 Hle. unfold take. fold fsize.
  rewrite place_spec by exact Hn.
  destruct (Z.eqb_spec fsize (uint n)) as [E | E].
  - rewrite E, Z.ltb_irrefl. reflexivity.
  - rewrite split_spec by (try assumption; fold fsize; lia). fold fsize.
    replace (uint n <? fsize) with true by (symmetry; apply Z.ltb_lt; lia).
    eqb_cases; reflexivity.
Qed.

(** ** allocate by reuse: the layout it leaves *)

Lemma request_size_facts (size : Z) :
  0 <= size <= 2 ^ 31 - 16 ->
  Z.land (request_size size) 7 = 0 /\
  8 <= request_size size < 2 ^ 31 /\
  uint (request_size size) = request_size size.
Proof.
  intros H. split; [apply request_size_aligned |].
  rewrite (request_size_small size H).
  pose proof (Z.div_mod (size + 15) 8 ltac:(lia)) as D.
  pose proof (Z.mod_pos_bound (size + 15) 8 ltac:(lia)) as B.
  split; [lia |]. apply uint_small. lia.
Qed.

(** X11.  The block [mm_malloc] hands out by reuse, for a request of at
    most [2^31 - 16] bytes: its header and footer agree on the needed size
    and the allocated bit.  If the chosen block was exactly that size its
    successor is the same as before.  If it was larger, the rest is a free
    block right behind it, whose header and footer agree on the remaining
    size and whose successor is the old successor: the blocks still tile the
    heap.  No word outside the chosen block changes. *)
Theorem mm_malloc_reuse_layout
  (fuel : nat) (st : state) (size current : Z) :
  let m := mem st in
  let n := request_size size in
  let fsize := GET_SIZE m (HDRP current) in
  0 <= size <= 2 ^ 31 - 16 ->
  find_fit fuel m (heap_startp st) n = Some (Some current) ->
  exists st',
    mm_malloc fuel st size = Ret (st', Some current) /\
    GET_SIZE (mem st') (HDRP current) = n /\
    GET_ALLOC (mem st') (HDRP current) = 1 /\
    GET (mem st') (FTRP (mem st') current) = GET (mem st') (HDRP current) /\
    (n = fsize -> NEXT_BLKP (mem st') current = NEXT_BLKP m current) /\
    (n < fsize ->
     let r := NEXT_BLKP (mem st') current in
     GET_SIZE (mem st') (HDRP r) = fsize - n /\
     GET_ALLOC (mem st') (HDRP r) = 0 /\
     GET (mem st') (FTRP (mem st') r) = GET (mem st') (HDRP r) /\
     NEXT_BLKP (mem st') r = NEXT_BLKP m current) /\
    (forall a, a < HDRP current \/ FTRP m current < a ->
               mem st' a = m a).
Proof.
  intros m n fsize Hsize Hfind.
  destruct (request_size_facts size Hsize) as (Hn & Hn8 & Hu). fold n in Hn, Hn8, Hu.
  destruct (find_fit_sound _ _ _ _ _ Hfind) as [_ Hfits].
  destruct (fits_spec _ _ _ Hfits) as [_ Hle]. fold fsize in Hle.
  rewrite Hu in Hle.
  pose proof (GET_SIZE_range m (HDRP current)) as Hr. fold fsize in Hr.
  destruct (GET_SIZE_mul8 m (HDRP current)) as [q Hq]. fold fsize in Hq.
  destruct (tag_size_mul8 n) as [r8 Hr8].
  rewrite (tag_size_aligned n Hn), Hu in Hr8.
  exists (set_mem st (take m current n)).
  split; [apply mm_malloc_take; exact Hfind |].
  cbn [mem set_mem].
  assert (Hspec : forall a,
             take m current n a =
             if (a =? current - 4) || (a =? current + n - 8) then n + 1
             else if (n <? fsize)
                     && ((a =? current + n - 4) || (a =? current + fsize - 8))
                  then fsize - n else m a).
  { intros a. rewrite take_spec by (try assumption; rewrite Hu; lia).
    rewrite Hu. reflexivity. }
  assert (Hpl : GET_SIZE (take m current n) (HDRP current) = n /\
                GET_ALLOC (take m current n) (HDRP current) = 1 /\
                FTRP (take m current n) current = current + n - 8 /\
                take m current n (current + n - 8)
                = take m current n (HDRP current)).
  { unfold take. set (X := if _ =? _ then _ else _).
    pose proof (place_header X current n Hn ltac:(rewrite Hu; lia)) as P.
    rewrite Hu in P. exact P. }
  destruct Hpl as (Hs & Ha & Hf & Hagree).
  assert (Hnext : NEXT_BLKP (take m current n) current = current + n)
    by (unfold NEXT_BLKP; rewrite Hs; reflexivity).
  split; [exact Hs |]. split; [exact Ha |].
  split; [unfold GET; rewrite Hf; exact Hagree |].
  split; [intros E; rewrite Hnext; unfold NEXT_BLKP; fold fsize; lia |].
  split.
  - intros Hlt. cbv zeta. rewrite Hnext.
    assert (Hh : take m current n (HDRP (current + n)) = fsize - n).
    { rewrite Hspec. unfold HDRP. eqb_cases; cbn [orb andb]; lia. }
    assert (He : tag_size (fsize - n) = fsize - n).
    { replace (fsize - n) with (8 * (q - r8)) by lia.
      apply tag_size_mul8_id. lia. }
    assert (Hs' : GET_SIZE (take m current n) (HDRP (current + n)) = fsize - n)
      by (rewrite GET_SIZE_tag, Hh; exact He).
    assert (Hf' : FTRP (take m current n) (current + n) = current + fsize - 8)
      by (unfold FTRP; rewrite Hs'; lia).
    split; [exact Hs' |].
    split.
    { rewrite GET_ALLOC_tag, Hh, <- He. apply tag_alloc_tag_size. }
    split.
    { unfold GET. rewrite Hf', Hh, Hspec.
      eqb_cases; cbn [orb andb]; lia. }
    unfold NEXT_BLKP at 1. rewrite Hs'. unfold NEXT_BLKP. fold fsize. lia.
  - intros a Ha'. rewrite Hspec. unfold HDRP, FTRP in Ha'. fold fsize in Ha'.
    unfold HDRP in Ha'.
    eqb_cases; cbn [orb andb]; try reflexivity; try lia.
    all: destruct (n <? fsize); reflexivity.
Qed.

Lemma mm_malloc_reuse_layout_witness :
  let st := one_free_block in
  let m := mem st in
  let n := request_size 8 in
  let fsize := GET_SIZE m (HDRP 16) in
  exists st',
    mm_malloc 3 st 8 = Ret (st', Some 16) /\
    GET_SIZE (mem st') (HDRP 16) = n /\
    GET_ALLOC (mem st') (HDRP 16) = 1 /\
    GET (mem st') (FTRP (mem st') 16) = GET (mem st') (HDRP 16) /\
    (n = fsize -> NEXT_BLKP (mem st') 16 = NEXT_BLKP m 16) /\
    (n < fsize ->
     let r := NEXT_BLKP (mem st') 16 in
     GET_SIZE (mem st') (HDRP r) = fsize - n /\
     GET_ALLOC (mem st') (HDRP r) = 0 /\
     GET (mem st') (FTRP (mem st') r) = GET (mem st') (HDRP r) /\
     NEXT_BLKP (mem st') r = NEXT_BLKP m 16) /\
    (forall a, a < HDRP 16 \/ FTRP m 16 < a -> mem st' a = m a).
Proof.
  apply (mm_malloc_reuse_layout 3 one_free_block 8 16).
  - lia.
  - vm_compute. reflexivity.
Defined.

(** ** [coalesce] and [mm_free] with a free predecessor *)

Lemma coalesce_merge_spec (m : memory) (bp : Z) :
  let prev := PREV_BLKP m bp in
  let size := GET_SIZE m (HDRP bp) in
  let psize := GET_SIZE m (HDRP prev) in
  GET_ALLOC m (HDRP prev) = 0 ->
  0 < GET_SIZE m (bp - 8) ->
  size + psize < 2 ^ 31 ->
  exists m',
    coalesce m bp = (m', prev) /\
    (forall a, m' a = if (a =? HDRP prev) || (a =? FTRP m bp)
                      then size + psize else m a).
Proof.
  intros prev size psize Hfree Hpos Hsum.
  pose proof (GET_SIZE_range m (HDRP bp)) as R1. fold size in R1.
  pose proof (GET_SIZE_range m (HDRP prev)) as R2. fold psize in R2.
  unfold coalesce. fold prev. rewrite Hfree. cbn [Z.eqb negb].
  fold size psize.
  eexists. split; [reflexivity |].
  assert (Hv : uint (PACK (sint (uint (size + psize))) 0) = size + psize).
  { rewrite PACK_0, uint_sint, uint_idem. apply uint_small. lia. }
  assert (Hne : HDRP bp <> HDRP prev).
  { unfold prev, PREV_BLKP, HDRP. lia. }
  assert (Hf : FTRP (PUT m (HDRP prev) (PACK (sint (uint (size + psize))) 0)) bp
               = FTRP m bp).
  { unfold FTRP. rewrite GET_SIZE_PUT_other by exact Hne. reflexivity. }
  intros a. rewrite Hf. unfold PUT. rewrite Hv.
  destruct (a =? FTRP m bp); [rewrite orb_true_r; reflexivity |].
  rewrite orb_false_r. reflexivity.
Qed.

(** X12.  [coalesce] on a block whose predecessor (found through the footer
    at [bp - 8]) has a header that says free: it returns the predecessor's
    pointer, and writes the sum of the two header sizes, as a free tag, into
    the predecessor's header and into the footer of [bp]; nothing else
    changes.  When the predecessor's footer agreed with its header, the
    merged block ends where [bp] ended. *)
Theorem coalesce_merges_predecessor (m : memory) (bp : Z) :
  let prev := PREV_BLKP m bp in
  let size := GET_SIZE m (HDRP bp) in
  let psize := GET_SIZE m (HDRP prev) in
  GET_ALLOC m (HDRP prev) = 0 ->
  0 < GET_SIZE m (bp - 8) ->
  size + psize < 2 ^ 31 ->
  exists m',
    coalesce m bp = (m', prev) /\
    (forall a, a <> HDRP prev -> a <> FTRP m bp -> m' a = m a) /\
    GET_SIZE m' (HDRP prev) = size + psize /\
    GET_ALLOC m' (HDRP prev) = 0 /\
    GET m' (FTRP m bp) = GET m' (HDRP prev) /\
    (GET_SIZE m (bp - 8) = psize ->
     FTRP m' prev = FTRP m bp /\ NEXT_BLKP m' prev = NEXT_BLKP m bp).
Proof.
  intros prev size psize Hfree Hpos Hsum.
  destruct (coalesce_merge_spec m bp Hfree Hpos Hsum) as (m' & Hc & Hspec).
  fold prev size psize in Hc, Hspec.
  destruct (GET_SIZE_mul8 m (HDRP bp)) as [q Hq]. fold size in Hq.
  destruct (GET_SIZE_mul8 m (HDRP prev)) as [r Hr]. fold psize in Hr.
  pose proof (GET_SIZE_range m (HDRP bp)) as R1. fold size in R1.
  pose proof (GET_SIZE_range m (HDRP prev)) as R2. fold psize in R2.
  assert (Hh : m' (HDRP prev) = size + psize).
  { rewrite Hspec, Z.eqb_refl. reflexivity. }
  assert (Hts : tag_size (size + psize) = size + psize).
  { replace (size + psize) with (8 * (q + r)) by lia.
    apply tag_size_mul8_id. lia. }
  assert (Hs : GET_SIZE m' (HDRP prev) = size + psize)
    by (rewrite GET_SIZE_tag, Hh; exact Hts).
  exists m'. split; [exact Hc |].
  split.
  { intros a H1 H2. rewrite Hspec.
    apply Z.eqb_neq in H1, H2. rewrite H1, H2. reflexivity. }
  split; [exact Hs |].
  split; [rewrite GET_ALLOC_tag, Hh, <- Hts; apply tag_alloc_tag_size |].
  split.
  { unfold GET. rewrite Hh, Hspec, Z.eqb_refl, orb_true_r. reflexivity. }
  intros Hagree. unfold FTRP at 1, NEXT_BLKP at 1. rewrite Hs.
  unfold FTRP, NEXT_BLKP. fold size.
  unfold prev, PREV_BLKP. rewrite Hagree. lia.
Qed.

Lemma coalesce_merges_predecessor_witness :
  let m := mark_free (mem (mm_free (stale_st4 48) 16)) 32 in
  let prev := PREV_BLKP m 32 in
  let size := GET_SIZE m (HDRP 32) in
  let psize := GET_SIZE m (HDRP prev) in
  exists m',
    coalesce m 32 = (m', prev) /\
    (forall a, a <> HDRP prev -> a <> FTRP m 32 -> m' a = m a) /\
    GET_SIZE m' (HDRP prev) = size + psize /\
    GET_ALLOC m' (HDRP prev) = 0 /\
    GET m' (FTRP m 32) = GET m' (HDRP prev) /\
    (GET_SIZE m (32 - 8) = psize ->
     FTRP m' prev = FTRP m 32 /\ NEXT_BLKP m' prev = NEXT_BLKP m 32).
Proof.
  apply (coalesce_merges_predecessor
           (mark_free (mem (mm_free (stale_st4 48) 16)) 32) 32).
  - vm_compute. reflexivity.
  - vm_compute. reflexivity.
  - vm_compute. reflexivity.
Defined.

(** X13.  [mm_free] of a block whose predecessor is free merges the two:
    afterwards the predecessor's header carries the sum of both sizes as a
    free tag, the footer of the freed block repeats it, and when the
    predecessor's tags agreed the merged block ends where the freed block
    ended.  Apart from these two words only the freed block's own header is
    written; the break stays. *)
Theorem mm_free_merges_predecessor (st : state) (ptr : Z) :
  let m := mem st in
  let size := GET_SIZE m (HDRP ptr) in
  let prev := PREV_BLKP m ptr in
  let psize := GET_SIZE m (HDRP prev) in
  0 < size ->
  0 < GET_SIZE m (ptr - 8) ->
  GET_ALLOC m (HDRP prev) = 0 ->
  size + psize < 2 ^ 31 ->
  let st' := mm_free st ptr in
  (forall a, a <> HDRP prev -> a <> HDRP ptr -> a <> FTRP m ptr ->
             mem st' a = m a) /\
  GET_SIZE (mem st') (HDRP prev) = size + psize /\
  GET_ALLOC (mem st') (HDRP prev) = 0 /\
  GET (mem st') (FTRP m ptr) = GET (mem st') (HDRP prev) /\
  (GET_SIZE m (ptr - 8) = psize ->
   FTRP (mem st') prev = FTRP m ptr /\
   NEXT_BLKP (mem st') prev = NEXT_BLKP m ptr) /\
  mem_brk st' = mem_brk st.
Proof.
  intros m size prev psize Hsize Hpos Hfree Hsum st'.
  destruct (GET_SIZE_mul8 m (HDRP ptr)) as [q Hq]. fold size in Hq.
  destruct (GET_SIZE_mul8 m (ptr - 8)) as [r Hr].
  destruct (GET_SIZE_mul8 m (HDRP prev)) as [t Ht]. fold psize in Ht.
  pose proof (GET_SIZE_range m (HDRP ptr)) as R1. fold size in R1.
  pose proof (GET_SIZE_range m (HDRP prev)) as R2. fold psize in R2.
  set (m1 := mark_free m ptr).
  assert (Hm1 : forall a, m1 a = if (a =? HDRP ptr) || (a =? ptr + size - 8)
                                 then size else m a)
    by (intros a; apply mark_free_spec).
  assert (Hftr : m1 (ptr - 8) = m (ptr - 8)).
  { rewrite Hm1. unfold HDRP. eqb_cases; reflexivity. }
  assert (Hprev1 : PREV_BLKP m1 ptr = prev).
  { unfold PREV_BLKP. rewrite !GET_SIZE_tag, Hftr. reflexivity. }
  assert (Hhp : m1 (HDRP prev) = m (HDRP prev)).
  { rewrite Hm1. unfold prev, PREV_BLKP, HDRP. eqb_cases; reflexivity. }
  assert (Hhd : m1 (HDRP ptr) = size).
  { rewrite Hm1, Z.eqb_refl. reflexivity. }
  assert (Hsz1 : GET_SIZE m1 (HDRP ptr) = size).
  { rewrite GET_SIZE_tag, Hhd. unfold size.
    rewrite GET_SIZE_tag. apply tag_size_idem. }
  assert (Hf1 : FTRP m1 ptr = FTRP m ptr).
  { unfold FTRP. rewrite Hsz1. reflexivity. }
  destruct (coalesce_merge_spec m1 ptr) as (m' & Hc & Hspec).
  { rewrite Hprev1, GET_ALLOC_tag, Hhp. exact Hfree. }
  { rewrite GET_SIZE_tag, Hftr. exact Hpos. }
  { rewrite Hprev1, Hsz1, GET_SIZE_tag, Hhp. exact Hsum. }
  rewrite Hprev1, Hsz1, Hf1 in Hspec.
  replace (GET_SIZE m1 (HDRP prev)) with psize in Hspec
    by (rewrite GET_SIZE_tag, Hhp; reflexivity).
  assert (Hst : mem st' = m').
  { unfold st'. rewrite mm_free_unfold. fold m m1. rewrite Hc. reflexivity. }
  rewrite Hst.
  assert (Hh : m' (HDRP prev) = size + psize).
  { rewrite Hspec, Z.eqb_refl. reflexivity. }
  assert (Hts : tag_size (size + psize) = size + psize).
  { replace (size + psize) with (8 * (q + t)) by lia.
    apply tag_size_mul8_id. lia. }
  assert (Hs : GET_SIZE m' (HDRP prev) = size + psize)
    by (rewrite GET_SIZE_tag, Hh; exact Hts).
  split.
  { intros a H1 H2 H3. rewrite Hspec, Hm1.
    unfold FTRP in H3. fold size in H3.
    apply Z.eqb_neq in H1, H2. rewrite H1, H2.
    unfold FTRP. fold size.
    destruct (Z.eqb_spec a (ptr + size - 8)); [contradiction | reflexivity]. }
  split; [exact Hs |].
  split; [rewrite GET_ALLOC_tag, Hh, <- Hts; apply tag_alloc_tag_size |].
  split.
  { unfold GET. rewrite Hh, Hspec, Z.eqb_refl, orb_true_r. reflexivity. }
  split; [| reflexivity].
  intros Hagree. unfold FTRP at 1, NEXT_BLKP at 1. rewrite Hs.
  unfold FTRP, NEXT_BLKP. fold size.
  unfold prev, PREV_BLKP. rewrite Hagree. lia.
Qed.

Lemma mm_free_merges_predecessor_witness :
  let st := mm_free (stale_st4 48) 16 in
  let ptr := 32 in
  let m := mem st in
  let size := GET_SIZE m (HDRP ptr) in
  let prev := PREV_BLKP m ptr in
  let psize := GET_SIZE m (HDRP prev) in
  let st' := mm_free st ptr in
  (forall a, a <> HDRP prev -> a <> HDRP ptr -> a <> FTRP m ptr ->
             mem st' a = m a) /\
  GET_SIZE (mem st') (HDRP prev) = size + psize /\
  GET_ALLOC (mem st') (HDRP prev) = 0 /\
  GET (mem st') (FTRP m ptr) = GET (mem st') (HDRP prev) /\
  (GET_SIZE m (ptr - 8) = psize ->
   FTRP (mem st') prev = FTRP m ptr /\
   NEXT_BLKP (mem st') prev = NEXT_BLKP m ptr) /\
  mem_brk st' = mem_brk st.
Proof.
  apply (mm_free_merges_predecessor
           (mm_free (stale_st4 48) 16) 32);
    vm_compute; reflexivity.
Defined.

(** ** allocate by growing the heap *)

Lemma lay_free_spec (m : memory) (bp n a : Z) :
  Z.land n 7 = 0 -> 8 <= n < 2 ^ 31 ->
  lay_free m bp n a =
  if a =? bp + n then 1
  else if (a =? bp - 4) || (a =? bp + n - 8) then n else m a.
Proof.
  intros Hn H8.
  assert (Hu : uint n = n) by (apply uint_small; lia).
  assert (Hv : uint (PACK n 0) = n) by (rewrite PACK_0; exact Hu).
  assert (Ht : tag_size (PACK n 0) = n).
  { rewrite PACK_0, (tag_size_aligned n Hn). exact Hu. }
  unfold lay_free.
  set (m1 := PUT m (HDRP bp) (PACK n 0)).
  assert (F1 : FTRP m1 bp = bp + n - 8).
  { unfold FTRP, m1. rewrite GET_SIZE_PUT_same, Ht. reflexivity. }
  rewrite F1.
  set (m2 := PUT m1 (bp + n - 8) (PACK n 0)).
  assert (N2 : NEXT_BLKP m2 bp = bp + n).
  { unfold NEXT_BLKP, m2, m1.
    rewrite GET_SIZE_PUT_other by (unfold HDRP; lia).
    rewrite GET_SIZE_PUT_same, Ht. reflexivity. }
  rewrite N2. unfold m2, m1, PUT, HDRP. rewrite Hv.
  change (uint (PACK 0 1)) with 1.
  eqb_cases; reflexivity.
Qed.

Lemma mm_malloc_grow_spec (fuel : nat) (st : state) (size : Z) :
  let m := mem st in
  let n := request_size size in
  let brk := mem_brk st in
  0 <= size <= 2 ^ 31 - 16 ->
  find_fit fuel m (heap_startp st) n = Some None ->
  grow_request st n = Some n ->
  pred_allocated m brk ->
  brk + n <= mem_max_addr st ->
  exists st',
    mm_malloc fuel st size = Ret (st', Some brk) /\
    mem_brk st' = brk + n /\
    mem_max_addr st' = mem_max_addr st /\
    heap_startp st' = heap_startp st /\
    (forall a, mem st' a =
               if (a =? brk - 4) || (a =? brk + n - 8) then n + 1
               else if a =? brk + n then 1 else m a).
Proof.
  intros m n brk Hsize Hfind Hreq [Hppos Hpalloc] Hroom.
  destruct (request_size_facts size Hsize) as (Hn & Hn8 & Hu).
  fold n in Hn, Hn8, Hu.
  destruct (GET_SIZE_mul8 m (brk - 8)) as [q Hq].
  pose proof (mm_malloc_grow fuel st size n Hfind Hreq ltac:(lia) Hroom) as Hm.
  assert (Hlf : forall a, lay_free m brk n a =
                          if a =? brk + n then 1
                          else if (a =? brk - 4) || (a =? brk + n - 8)
                               then n else m a)
    by (intros a; apply lay_free_spec; assumption).
  assert (Hext : extended st n = (lay_free m brk n, brk)).
  { unfold extended. fold m brk. apply coalesce_pred_allocated.
    assert (P : PREV_BLKP (lay_free m brk n) brk = PREV_BLKP m brk).
    { unfold PREV_BLKP. rewrite !GET_SIZE_tag, Hlf.
      eqb_cases; reflexivity. }
    rewrite P, GET_ALLOC_tag, Hlf.
    unfold PREV_BLKP, HDRP in *.
    eqb_cases; exact Hpalloc. }
  rewrite Hext in Hm. cbn [fst snd] in Hm.
  eexists. split; [exact Hm |].
  cbn [mem mem_brk mem_max_addr heap_startp set_mem grown].
  split; [reflexivity |]. split; [reflexivity |]. split; [reflexivity |].
  intros a. fold n. rewrite place_spec by exact Hn. rewrite Hu, Hlf.
  eqb_cases; reflexivity.
Qed.

(** X14.  [mm_malloc] on the growing path, for a request of at most
    [2^31 - 16] bytes: when the search found nothing, [extend_heap] asks for
    the full needed size, the block ending at the break is allocated and the
    arena has room, then the new block starts at the old break, the break
    moves up by the needed size, header and footer of the new block agree on
    that size and the allocated bit, and the zero-size allocated tag is
    written at the new break itself; the word just below the new break, from
    which the next search will read the size of the following block, is
    left as the arena had it.  No other word changes. *)
Theorem mm_malloc_grows_at_break (fuel : nat) (st : state) (size : Z) :
  let m := mem st in
  let n := request_size size in
  let brk := mem_brk st in
  0 <= size <= 2 ^ 31 - 16 ->
  find_fit fuel m (heap_startp st) n = Some None ->
  grow_request st n = Some n ->
  pred_allocated m brk ->
  brk + n <= mem_max_addr st ->
  exists st',
    mm_malloc fuel st size = Ret (st', Some brk) /\
    mem_brk st' = brk + n /\
    GET_SIZE (mem st') (HDRP brk) = n /\
    GET_ALLOC (mem st') (HDRP brk) = 1 /\
    GET (mem st') (FTRP (mem st') brk) = GET (mem st') (HDRP brk) /\
    NEXT_BLKP (mem st') brk = mem_brk st' /\
    GET (mem st') (mem_brk st') = PACK 0 1 /\
    GET (mem st') (HDRP (mem_brk st')) = GET m (HDRP (mem_brk st')) /\
    (forall a, a <> HDRP brk -> a <> brk + n - 8 -> a <> brk + n ->
               mem st' a = m a).
Proof.
  intros m n brk Hsize Hfind Hreq Hpred Hroom.
  destruct (mm_malloc_grow_spec fuel st size Hsize Hfind Hreq Hpred Hroom)
    as (st' & Hm & Hb & _ & _ & Hspec).
  fold m n brk in Hm, Hb, Hspec.
  destruct (request_size_facts size Hsize) as (Hn & Hn8 & Hu).
  fold n in Hn, Hn8, Hu.
  destruct (tag_size_mul8 n) as [r Hr].
  rewrite (tag_size_aligned n Hn), Hu in Hr.
  assert (Hh : mem st' (HDRP brk) = uint (PACK n 1)).
  { rewrite Hspec, uint_PACK_alloc, Hu by exact Hn. unfold HDRP.
    rewrite Z.eqb_refl. reflexivity. }
  assert (Hs : GET_SIZE (mem st') (HDRP brk) = n).
  { rewrite GET_SIZE_tag, Hh, tag_size_uint, tag_size_PACK
      by (right; reflexivity).
    rewrite (tag_size_aligned n Hn). exact Hu. }
  exists st'. split; [exact Hm |]. split; [exact Hb |].
  split; [exact Hs |].
  split; [rewrite GET_ALLOC_tag, Hh; apply tag_alloc_uint_PACK_1 |].
  split.
  { unfold GET, FTRP. rewrite Hs, Hh, Hspec, uint_PACK_alloc, Hu by exact Hn.
    rewrite Z.eqb_refl, orb_true_r. reflexivity. }
  split; [unfold NEXT_BLKP; rewrite Hs, Hb; reflexivity |].
  split.
  { unfold GET. rewrite Hb, Hspec. eqb_cases; reflexivity. }
  split.
  { unfold GET, HDRP. rewrite Hb, Hspec. eqb_cases; reflexivity. }
  intros a H1 H2 H3. rewrite Hspec. unfold HDRP in H1.
  eqb_cases; reflexivity.
Qed.

Lemma mm_malloc_grows_at_break_witness :
  let st := reuse_st1 zero_arena 56 in
  let m := mem st in
  let n := request_size 8 in
  let brk := mem_brk st in
  exists st',
    mm_malloc 3 st 8 = Ret (st', Some brk) /\
    mem_brk st' = brk + n /\
    GET_SIZE (mem st') (HDRP brk) = n /\
    GET_ALLOC (mem st') (HDRP brk) = 1 /\
    GET (mem st') (FTRP (mem st') brk) = GET (mem st') (HDRP brk) /\
    NEXT_BLKP (mem st') brk = mem_brk st' /\
    GET (mem st') (mem_brk st') = PACK 0 1 /\
    GET (mem st') (HDRP (mem_brk st')) = GET m (HDRP (mem_brk st')) /\
    (forall a, a <> HDRP brk -> a <> brk + n - 8 -> a <> brk + n ->
               mem st' a = m a).
Proof.
  apply (mm_malloc_grows_at_break 3 (reuse_st1 zero_arena 56) 8).
  - lia.
  - vm_compute. reflexivity.
  - vm_compute. reflexivity.
  - split; vm_compute; reflexivity.
  - vm_compute. discriminate.
Defined.

(** ** The first allocation *)

Lemma init_search_empty (m0 : memory) (fuel : nat) (newsize : Z) :
  (2 <= fuel)%nat -> find_fit fuel (init_mem m0) 8 newsize = Some None.
Proof.
  intros Hfuel. apply (find_fit_mono _ _ 2); [| exact Hfuel].
  assert (N8 : NEXT_BLKP (init_mem m0) 8 = 16) by (vm_compute; reflexivity).
  rewrite find_fit_step, N8.
  - apply find_fit_stop. vm_compute. reflexivity.
  - split; [vm_compute; discriminate |].
    unfold fits.
    replace (GET_ALLOC (init_mem m0) (HDRP 8)) with 1
      by (vm_compute; reflexivity).
    reflexivity.
Qed.

Lemma init_grow_request (m0 : memory) (cap n : Z) :
  0 < n < 2 ^ 31 -> grow_request (init_state m0 cap) n = Some n.
Proof.
  intros Hn. unfold grow_request.
  replace (PREV_BLKP (mem (init_state m0 cap))
                     (mem_heap_hi (init_state m0 cap) - 3))
    with 4 by (vm_compute; reflexivity).
  replace (GET_ALLOC (mem (init_state m0 cap)) (HDRP 4)) with 0
    by (vm_compute; reflexivity).
  replace (GET_SIZE (mem (init_state m0 cap)) (HDRP 4)) with 0
    by (vm_compute; reflexivity).
  cbn [Z.eqb]. change (sint 0) with 0.
  replace (0 <? n) with true by (symmetry; apply Z.ltb_lt; lia).
  rewrite Z.sub_0_r, sint_id by lia. reflexivity.
Qed.

(** X15.  On a heap fresh from [mm_init], the first [mm_malloc], for any
    request of at most [2^31 - 16] bytes and whatever the arena held: with
    room for the block it returns the payload pointer at offset 16, the
    break moves from 16 up by the block size, and the block's header says
    allocated with that size, the prologue staying as it was; without room
    it returns [NULL] and leaves the heap as [mm_init] made it. *)
Theorem first_malloc_on_fresh_heap
  (m0 : memory) (cap size : Z) (fuel : nat) :
  0 <= size <= 2 ^ 31 - 16 -> 16 <= cap -> (2 <= fuel)%nat ->
  exists st0,
    mm_init (mem_init m0 cap) = (st0, 0) /\
    (16 + request_size size <= cap ->
     exists st1,
       mm_malloc fuel st0 size = Ret (st1, Some 16) /\
       mem_brk st1 = 16 + request_size size /\
       GET_SIZE (mem st1) (HDRP 16) = request_size size /\
       GET_ALLOC (mem st1) (HDRP 16) = 1 /\
       live_block (mem st1) 8 /\
       GET_SIZE (mem st1) (HDRP 8) = 8) /\
    (cap < 16 + request_size size ->
     mm_malloc fuel st0 size = Ret (st0, None)).
Proof.
  intros Hsize Hcap Hfuel.
  destruct (request_size_facts size Hsize) as (Hn & Hn8 & Hu).
  set (n := request_size size) in *.
  set (st0 := init_state m0 cap).
  assert (Hfind : find_fit fuel (mem st0) (heap_startp st0) n = Some None)
    by (apply init_search_empty; exact Hfuel).
  assert (Hreq : grow_request st0 n = Some n)
    by (apply init_grow_request; lia).
  exists st0. split; [apply mm_init_ok; exact Hcap |]. split.
  - intros Hroom.
    destruct (mm_malloc_grow_spec fuel st0 size Hsize Hfind Hreq)
      as (st1 & Hm & Hb & _ & _ & Hspec).
    { split; vm_compute; reflexivity. }
    { exact Hroom. }
    fold n in Hm, Hb, Hspec.
    change (mem_brk st0) with 16 in Hm, Hb, Hspec.
    assert (Hh : mem st1 (HDRP 16) = uint (PACK n 1)).
    { rewrite Hspec, uint_PACK_alloc, Hu by exact Hn. reflexivity. }
    assert (H4 : mem st1 4 = mem st0 4).
    { rewrite Hspec. eqb_cases; reflexivity. }
    exists st1. split; [exact Hm |]. split; [exact Hb |].
    split.
    { rewrite GET_SIZE_tag, Hh, tag_size_uint, tag_size_PACK
        by (right; reflexivity).
      rewrite (tag_size_aligned n Hn). exact Hu. }
    split; [rewrite GET_ALLOC_tag, Hh; apply tag_alloc_uint_PACK_1 |].
    assert (S8 : GET_SIZE (mem st1) (HDRP 8) = 8).
    { rewrite GET_SIZE_tag. change (HDRP 8) with 4. rewrite H4.
      vm_compute. reflexivity. }
    split; [| exact S8].
    split; [| rewrite S8; lia].
    rewrite GET_ALLOC_tag. change (HDRP 8) with 4. rewrite H4.
    vm_compute. reflexivity.
  - intros Hfull. unfold mm_malloc, extend_heap. fold n.
    rewrite Hfind, Hreq. unfold mem_sbrk.
    change (mem_brk st0) with 16. change (mem_max_addr st0) with cap.
    replace (cap <? 16 + n) with true by (symmetry; apply Z.ltb_lt; lia).
    rewrite orb_true_r. reflexivity.
Qed.

Lemma first_malloc_on_fresh_heap_witness :
  exists st0,
    mm_init (mem_init zero_arena 40) = (st0, 0) /\
    (16 + request_size 16 <= 40 ->
     exists st1,
       mm_malloc 2 st0 16 = Ret (st1, Some 16) /\
       mem_brk st1 = 16 + request_size 16 /\
       GET_SIZE (mem st1) (HDRP 16) = request_size 16 /\
       GET_ALLOC (mem st1) (HDRP 16) = 1 /\
       live_block (mem st1) 8 /\
       GET_SIZE (mem st1) (HDRP 8) = 8) /\
    (40 < 16 + request_size 16 ->
     mm_malloc 2 st0 16 = Ret (st0, None)).
Proof.
  apply (first_malloc_on_fresh_heap zero_arena 40 16 2); lia.
Defined.

(** ** allocate by reuse keeps neighbours from being both free *)

Lemma walk_snoc (m : memory) (i : nat) :
  forall cur, walk m cur (S i) = NEXT_BLKP m (walk m cur i).
Proof.
  induction i as [| i IH]; intros cur; [reflexivity |].
  rewrite walk_S, IH. reflexivity.
Qed.

Lemma walk_add (m : memory) (a b : nat) :
  forall cur, walk m cur (a + b) = walk m (walk m cur a) b.
Proof.
  induction a as [| a IH]; intros cur; [reflexivity |].
  simpl. apply IH.
Qed.

Lemma walk_ge (m : memory) (i : nat) : forall cur, cur <= walk m cur i.
Proof.
  induction i as [| i IH]; intros cur; simpl; [lia |].
  pose proof (IH (NEXT_BLKP m cur)) as H.
  pose proof (GET_SIZE_range m (HDRP cur)). unfold NEXT_BLKP in *. lia.
Qed.

Lemma walk_ext_ge (m m1 : memory) (X : Z) :
  (forall a, X - 4 <= a -> m1 a = m a) ->
  forall i cur, X <= cur -> walk m1 cur i = walk m cur i.
Proof.
  intros H i. induction i as [| i IH]; intros cur Hc; [reflexivity |].
  simpl.
  assert (N : NEXT_BLKP m1 cur = NEXT_BLKP m cur).
  { unfold NEXT_BLKP. rewrite !GET_SIZE_tag, H by (unfold HDRP; lia).
    reflexivity. }
  rewrite N. apply IH.
  pose proof (GET_SIZE_range m (HDRP cur)). unfold NEXT_BLKP. lia.
Qed.

Lemma both_free_ext (m m1 : memory) (b : Z) :
  m1 (HDRP b) = m (HDRP b) ->
  m1 (HDRP (NEXT_BLKP m b)) = m (HDRP (NEXT_BLKP m b)) ->
  both_free m1 b = both_free m b.
Proof.
  intros H1 H2.
  assert (N : NEXT_BLKP m1 b = NEXT_BLKP m b).
  { unfold NEXT_BLKP. rewrite !GET_SIZE_tag, H1. reflexivity. }
  unfold both_free. rewrite N, !GET_SIZE_tag, !GET_ALLOC_tag, H1, H2.
  reflexivity.
Qed.

Lemma both_free_allocated (m : memory) (b : Z) :
  GET_ALLOC m (HDRP b) = 1 -> both_free m b = false.
Proof.
  intros H. unfold both_free. rewrite H. cbn [Z.eqb].
  rewrite andb_false_r. reflexivity.
Qed.

Lemma both_free_next_allocated (m : memory) (b : Z) :
  GET_ALLOC m (HDRP (NEXT_BLKP m b)) = 1 -> both_free m b = false.
Proof.
  intros H. unfold both_free. rewrite H. cbn [Z.eqb].
  apply andb_false_r.
Qed.

(** What [take] leaves in and around the chosen block. *)
Lemma take_facts (m : memory) (current n : Z) :
  let fsize := GET_SIZE m (HDRP current) in
  let m' := take m current n in
  Z.land n 7 = 0 -> 8 <= n < 2 ^ 31 -> n <= fsize ->
  (forall a, a < current - 4 -> m' a = m a) /\
  (forall a, current + fsize - 4 <= a -> m' a = m a) /\
  GET_SIZE m' (HDRP current) = n /\
  GET_ALLOC m' (HDRP current) = 1 /\
  (n < fsize ->
   GET_SIZE m' (HDRP (current + n)) = fsize - n /\
   GET_ALLOC m' (HDRP (current + n)) = 0).
Proof.
  intros fsize m' Hn Hn8 Hle.
  assert (Hu : uint n = n) by (apply uint_small; lia).
  pose proof (GET_SIZE_range m (HDRP current)) as Hr. fold fsize in Hr.
  destruct (GET_SIZE_mul8 m (HDRP current)) as [q Hq]. fold fsize in Hq.
  destruct (tag_size_mul8 n) as [r8 Hr8].
  rewrite (tag_size_aligned n Hn), Hu in Hr8.
  assert (Hspec : forall a,
             m' a =
             if (a =? current - 4) || (a =? current + n - 8) then n + 1
             else if (n <? fsize)
                     && ((a =? current + n - 4) || (a =? current + fsize - 8))
                  then fsize - n else m a).
  { intros a. unfold m'. rewrite take_spec by (try assumption; rewrite Hu; lia).
    rewrite Hu. reflexivity. }
  assert (Hpl : GET_SIZE m' (HDRP current) = n /\
                GET_ALLOC m' (HDRP current) = 1).
  { unfold m', take. set (X := if _ =? _ then _ else _).
    destruct (place_header X current n Hn ltac:(rewrite Hu; lia))
      as (P1 & P2 & _).
    rewrite Hu in P1. split; assumption. }
  split.
  { intros a Ha. rewrite Hspec.
    eqb_cases; cbn [orb andb]; try reflexivity.
    all: destruct (n <? fsize); reflexivity. }
  split.
  { intros a Ha. rewrite Hspec.
    eqb_cases; cbn [orb andb]; try reflexivity.
    all: destruct (n <? fsize); reflexivity. }
  split; [apply Hpl |]. split; [apply Hpl |].
  intros Hlt.
  assert (Hh : m' (HDRP (current + n)) = fsize - n).
  { rewrite Hspec. unfold HDRP. eqb_cases; cbn [orb andb]; lia. }
  assert (He : tag_size (fsize - n) = fsize - n).
  { replace (fsize - n) with (8 * (q - r8)) by lia.
    apply tag_size_mul8_id. lia. }
  split; [rewrite GET_SIZE_tag, Hh; exact He |].
  rewrite GET_ALLOC_tag, Hh, <- He. apply tag_alloc_tag_size.
Qed.

(** X16.  Allocation by reuse keeps the heap free of neighbouring free
    blocks: if no two consecutive blocks between prologue and epilogue are
    both free, and [mm_malloc] serves a request of at most [2^31 - 16] bytes
    from a free block (splitting it or not), then the same holds of the
    heap it leaves. *)
Theorem mm_malloc_reuse_keeps_no_adjacent_free
  (fuel : nat) (st : state) (size current : Z) :
  0 <= size <= 2 ^ 31 - 16 ->
  find_fit fuel (mem st) (heap_startp st) (request_size size)
  = Some (Some current) ->
  no_adjacent_free st ->
  exists st',
    mm_malloc fuel st size = Ret (st', Some current) /\
    no_adjacent_free st'.
Proof.
  intros Hsize Hfind Hinv.
  destruct (request_size_facts size Hsize) as (Hn & Hn8 & Hu).
  destruct (find_fit_sound _ _ _ _ _ Hfind) as [Hnz Hfits].
  destruct (fits_spec _ _ _ Hfits) as [Hfree Hle]. rewrite Hu in Hle.
  destruct (find_fit_on_walk _ _ _ _ _ Hfind) as (k & Hk & _ & Hb & _).
  exists (set_mem st (take (mem st) current (request_size size))).
  split; [apply mm_malloc_take; exact Hfind |].
  unfold no_adjacent_free in *. cbn [mem heap_startp set_mem].
  remember (request_size size) as n eqn:En.
  remember (mem st) as m eqn:Em.
  remember (heap_startp st) as cur eqn:Ecur.
  remember (take m current n) as m' eqn:Em'.
  remember (GET_SIZE m (HDRP current)) as fsize eqn:Ef.
  destruct (take_facts m current n Hn Hn8) as (F1 & F2 & F3s & F3a & F4).
  { rewrite <- Ef. exact Hle. }
  rewrite <- Em', <- Ef in *.
  pose proof (GET_SIZE_range m (HDRP current)) as Hr. rewrite <- Ef in Hr.
  set (X := current + fsize).
  assert (HX : walk m cur (S k) = X).
  { rewrite walk_snoc, <- Hk. unfold NEXT_BLKP. rewrite <- Ef. reflexivity. }
  (* blocks before the chosen one *)
  assert (Hbefore : forall i, (i < k)%nat ->
                              m' (HDRP (walk m cur i)) = m (HDRP (walk m cur i))).
  { intros i Hi. apply F1.
    pose proof (walk_increasing m k cur i Hb Hi) as Hlt. rewrite <- Hk in Hlt.
    unfold HDRP. lia. }
  assert (W1 : forall i, (i <= k)%nat -> walk m' cur i = walk m cur i).
  { intros i Hi. apply walk_ext. intros i' Hi'. apply Hbefore. lia. }
  (* blocks after the chosen one *)
  assert (WX : forall j, walk m' X j = walk m X j).
  { intros j. apply (walk_ext_ge m m' X); [| lia].
    intros a Ha. apply F2. unfold X in Ha. lia. }
  assert (Hafter : forall j, m' (HDRP (walk m X j)) = m (HDRP (walk m X j))).
  { intros j. apply F2. pose proof (walk_ge m j X). unfold HDRP, X in *. lia. }
  assert (Wm : forall j, walk m cur (S k + j) = walk m X j).
  { intros j. rewrite walk_add, HX. reflexivity. }
  assert (After : forall d,
             walk m' cur (S k + d) = X ->
             forall j,
               before_epilogue m' cur (S (S k + d + j)) ->
               both_free m' (walk m' cur (S k + d + j)) = false).
  { intros d Hd j Hb'.
    assert (Wd : forall j', walk m' cur (S k + d + j') = walk m X j').
    { intros j'. rewrite walk_add, Hd. apply WX. }
    rewrite Wd.
    rewrite (both_free_ext m m').
    - rewrite <- Wm. apply Hinv.
      intros t Ht.
      destruct (Nat.le_gt_cases t k) as [Htk | Htk]; [apply Hb; exact Htk |].
      replace t with (S k + (t - S k))%nat by lia.
      rewrite Wm, GET_SIZE_tag, <- Hafter, <- GET_SIZE_tag, <- Wd.
      apply Hb'. lia.
    - apply Hafter.
    - replace (NEXT_BLKP m (walk m X j)) with (walk m X (S j))
        by apply walk_snoc.
      apply Hafter. }
  intros i Hb'.
  assert (C : (S i < k \/ S i = k \/ i = k \/ k < i)%nat) by lia.
  destruct C as [C | [C | [C | C]]].
  - (* both blocks lie before the chosen one *)
    rewrite (W1 i) by lia.
    rewrite (both_free_ext m m').
    + apply Hinv. intros t Ht. apply Hb. lia.
    + apply Hbefore. lia.
    + rewrite <- walk_snoc. apply Hbefore. lia.
  - (* the chosen block is the second of the pair *)
    rewrite (W1 i) by lia.
    apply both_free_next_allocated.
    assert (N : NEXT_BLKP m' (walk m cur i) = current).
    { unfold NEXT_BLKP. rewrite GET_SIZE_tag, Hbefore by lia.
      rewrite <- GET_SIZE_tag. fold (NEXT_BLKP m (walk m cur i)).
      rewrite <- walk_snoc, C. symmetry. exact Hk. }
    rewrite N. exact F3a.
  - (* the chosen block is the first of the pair *)
    subst i. rewrite (W1 k), <- Hk by lia.
    apply both_free_allocated, F3a.
  - (* the pair starts after the chosen block *)
    assert (Wk : walk m' cur k = current) by (rewrite W1, Hk by lia; reflexivity).
    assert (N1 : walk m' cur (S k) = current + n).
    { rewrite walk_snoc, Wk. unfold NEXT_BLKP. rewrite F3s. reflexivity. }
    destruct (Z.eq_dec n fsize) as [E | E].
    + (* no split *)
      replace i with (S k + 0 + (i - S k))%nat by lia.
      apply (After 0%nat).
      * rewrite Nat.add_0_r, N1, E. reflexivity.
      * replace (S k + 0 + (i - S k))%nat with i by lia. exact Hb'.
    + (* split: the remainder sits at index [S k] *)
      assert (Hlt : n < fsize) by lia.
      destruct (F4 Hlt) as [F4s F4a].
      assert (N2 : walk m' cur (S k + 1) = X).
      { rewrite Nat.add_1_r, walk_snoc, N1. unfold NEXT_BLKP.
        rewrite F4s. unfold X. lia. }
      destruct (Nat.eq_dec i (S k)) as [Ei | Ei].
      * subst i. rewrite N1.
        assert (NX : NEXT_BLKP m' (current + n) = X).
        { unfold NEXT_BLKP. rewrite F4s. unfold X. lia. }
        assert (HXw : m' (HDRP X) = m (HDRP X)).
        { apply F2. unfold HDRP, X. lia. }
        unfold both_free. rewrite NX, !GET_SIZE_tag, !GET_ALLOC_tag, HXw.
        rewrite <- !GET_SIZE_tag, <- !GET_ALLOC_tag.
        destruct (Z.eqb_spec (GET_SIZE m (HDRP X)) 0) as [Z0 | Z0].
        { cbn [negb]. rewrite andb_false_r. reflexivity. }
        assert (HbS : before_epilogue m cur (S k)).
        { intros t Ht.
          destruct (Nat.le_gt_cases t k) as [Htk | Htk];
            [apply Hb; exact Htk |].
          replace t with (S k) by lia. rewrite HX. exact Z0. }
        pose proof (Hinv k HbS) as Hk0. rewrite <- Hk in Hk0.
        unfold both_free in Hk0.
        replace (NEXT_BLKP m current) with X in Hk0
          by (unfold NEXT_BLKP, X; rewrite <- Ef; reflexivity).
        rewrite Hfree in Hk0.
        apply Z.eqb_neq in Hnz, Z0. rewrite <- Ef, Hnz, Z0 in Hk0.
        cbn [negb andb Z.eqb] in Hk0.
        rewrite Hk0. apply andb_false_r.
      * replace i with (S k + 1 + (i - S (S k)))%nat by lia.
        apply (After 1%nat); [exact N2 |].
        replace (S k + 1 + (i - S (S k)))%nat with i by lia. exact Hb'.
Qed.

Lemma mm_malloc_reuse_keeps_no_adjacent_free_witness :
  exists st',
    mm_malloc 3 one_free_block 8 = Ret (st', Some 16) /\
    no_adjacent_free st'.
Proof.
  apply (mm_malloc_reuse_keeps_no_adjacent_free 3 one_free_block 8 16).
  - lia.
  - vm_compute. reflexivity.
  - intros i Hb. destruct i as [| i]; [vm_compute; reflexivity |].
    exfalso. apply (Hb 2%nat); [lia | vm_compute; reflexivity].
Defined.

(** ** allocate: when the chosen block is split *)

(** C5 as stated fails for the 16-byte minimum block of the design document.
    After [init; p = malloc(16); free(p)] the first fit for [malloc(8)] is
    the 24-byte block at 16, which exceeds the 16 bytes needed by 8, less
    than [SPEC_MIN_BLOCK].  [mm_malloc(8)] does not take the whole block: it
    splits off a free block of 8 bytes, a header and a footer with no
    payload, smaller than [SPEC_MIN_BLOCK]. *)
Lemma mm_malloc_splits_below_spec_minimum :
  exists st0 st1 st3,
    mm_init (mem_init zero_arena 40) = (st0, 0) /\
    mm_malloc 3 st0 16 = Ret (st1, Some 16) /\
    let st2 := mm_free st1 16 in
    let excess := GET_SIZE (mem st2) (HDRP 16) - uint (request_size 8) in
    find_fit 3 (mem st2) (heap_startp st2) (request_size 8)
    = Some (Some 16) /\
    0 < excess < SPEC_MIN_BLOCK /\
    mm_malloc 3 st2 8 = Ret (st3, Some 16) /\
    GET_SIZE (mem st2) (HDRP 16) = 24 /\
    GET_SIZE (mem st3) (HDRP 16) = 16 /\
    NEXT_BLKP (mem st3) 16 = 32 /\
    mem st3 (HDRP 32) <> mem st2 (HDRP 32) /\
    GET_ALLOC (mem st3) (HDRP 32) = 0 /\
    0 < GET_SIZE (mem st3) (HDRP 32) < SPEC_MIN_BLOCK /\
    FTRP (mem st3) 32 = 32 /\
    GET (mem st3) (FTRP (mem st3) 32) = GET (mem st3) (HDRP 32).
Proof.
  exists full_start, one_block, (reuse_st3 zero_arena 40).
  split; [exact (proj1 one_block_reached) |].
  split; [exact (proj2 one_block_reached) |].
  cbv zeta.
  split; [vm_compute; reflexivity |].
  split; [split; vm_compute; reflexivity |].
  split; [apply mm_malloc_take; vm_compute; reflexivity |].
  split; [vm_compute; reflexivity |].
  split; [vm_compute; reflexivity |].
  split; [vm_compute; reflexivity |].
  split; [vm_compute; discriminate |].
  split; [vm_compute; reflexivity |].
  split; [split; vm_compute; reflexivity |].
  split; vm_compute; reflexivity.
Qed.

(** C5, amended.  [mm_malloc] has no split threshold.  When the search has
    chosen [current]: if the block has exactly the needed size the whole
    block is taken and only its header and footer are rewritten (same size,
    allocated); if it is larger, by however little, it is split, for a
    request of at most [2^31 - 16] bytes into the allocated block of the
    needed size and, right behind it, a free block of the excess, which is
    at least [MIN_BLOCK] = 8 bytes; and in every case a word that
    [mm_malloc] changed and that reads as a free tag carries a size of at
    least [MIN_BLOCK]. *)
Theorem mm_malloc_splits_any_excess
  (fuel : nat) (st : state) (size current : Z) :
  let m := mem st in
  let newsize := request_size size in
  let fsize := GET_SIZE m (HDRP current) in
  find_fit fuel m (heap_startp st) newsize = Some (Some current) ->
  exists st',
    mm_malloc fuel st size = Ret (st', Some current) /\
    uint newsize <= fsize /\
    (fsize = uint newsize ->
     forall a, mem st' a =
               if (a =? HDRP current) || (a =? FTRP m current)
               then PACK fsize 1 else m a) /\
    (0 <= size <= 2 ^ 31 - 16 -> uint newsize < fsize ->
     MIN_BLOCK <= fsize - uint newsize /\
     GET_SIZE (mem st') (HDRP current) = uint newsize /\
     GET_ALLOC (mem st') (HDRP current) = 1 /\
     NEXT_BLKP (mem st') current = current + uint newsize /\
     GET_SIZE (mem st') (HDRP (current + uint newsize))
     = fsize - uint newsize /\
     GET_ALLOC (mem st') (HDRP (current + uint newsize)) = 0) /\
    (forall a, mem st' a <> m a ->
               GET_ALLOC (mem st') a = 0 ->
               MIN_BLOCK <= GET_SIZE (mem st') a).
Proof.
  intros m newsize fsize Hfind.
  destruct (mm_malloc_found_words fuel st size current Hfind)
    as (st' & Hm & Hle & Hwhole & Hfree).
  fold m newsize fsize in Hm, Hle, Hwhole, Hfree.
  pose proof (mm_malloc_take fuel st size current Hfind) as Ht.
  rewrite Hm in Ht. inversion Ht as [Hst]. clear Ht.
  exists st'. split; [exact Hm |]. split; [exact Hle |].
  split.
  { intros E. apply Hwhole. unfold MIN_BLOCK. lia. }
  split; [| exact Hfree].
  intros Hsize Hlt.
  destruct (request_size_facts size Hsize) as (Hn & Hn8 & Hu).
  fold newsize in Hn, Hn8, Hu. rewrite Hu in *.
  destruct (take_facts m current newsize Hn Hn8) as (_ & _ & F3s & F3a & F4).
  { fold fsize. lia. }
  fold fsize in F4. destruct (F4 Hlt) as [F4s F4a].
  destruct (GET_SIZE_mul8 m (HDRP current)) as [q Hq]. fold fsize in Hq.
  destruct (tag_size_mul8 newsize) as [r Hr].
  rewrite (tag_size_aligned newsize Hn), Hu in Hr.
  rewrite Hst. cbn [mem set_mem]. fold m newsize.
  split; [unfold MIN_BLOCK; lia |].
  split; [exact F3s |]. split; [exact F3a |].
  split; [unfold NEXT_BLKP; rewrite F3s; reflexivity |].
  split; [exact F4s | exact F4a].
Qed.

Lemma mm_malloc_splits_any_excess_witness :
  let st := one_free_block in
  let m := mem st in
  let newsize := request_size 8 in
  let fsize := GET_SIZE m (HDRP 16) in
  exists st',
    mm_malloc 3 st 8 = Ret (st', Some 16) /\
    uint newsize <= fsize /\
    (fsize = uint newsize ->
     forall a, mem st' a =
               if (a =? HDRP 16) || (a =? FTRP m 16)
               then PACK fsize 1 else m a) /\
    (0 <= 8 <= 2 ^ 31 - 16 -> uint newsize < fsize ->
     MIN_BLOCK <= fsize - uint newsize /\
     GET_SIZE (mem st') (HDRP 16) = uint newsize /\
     GET_ALLOC (mem st') (HDRP 16) = 1 /\
     NEXT_BLKP (mem st') 16 = 16 + uint newsize /\
     GET_SIZE (mem st') (HDRP (16 + uint newsize)) = fsize - uint newsize /\
     GET_ALLOC (mem st') (HDRP (16 + uint newsize)) = 0) /\
    (forall a, mem st' a <> m a ->
               GET_ALLOC (mem st') a = 0 ->
               MIN_BLOCK <= GET_SIZE (mem st') a).
Proof.
  apply (mm_malloc_splits_any_excess 3 one_free_block 8 16).
  vm_compute. reflexivity.
Defined.
